(** * A community board client: votes, feed, moderation and profile statistics

    Shallow embedding of the client logic of
    [src/components/PostCard.tsx], [src/components/CreatePostForm.tsx],
    [src/pages/FeedPage.tsx], [src/pages/ProfilePage.tsx] and of the record
    types of [src/lib/supabase.ts].  Handlers are [async] functions; a
    handler is modelled as one uninterrupted run over the session.

    The hosted record store is an external collaborator.  It is modelled as
    three tables (lists of rows, in insertion order) with the handful of
    queries the client sends; every request is answered by an [Outcome]
    chosen by the environment: served, with the row id and timestamp the
    store assigns, or refused with an error message and no effect.  The
    store keeps the score of a post equal to the sum of its votes. *)

From Stdlib Require Import ZArith List String Ascii Bool Lia.
From Stdlib Require Import Sorted Permutation DecimalString.
From Stdlib Require Import SpecFloat.
Import ListNotations.

Local Open Scope string_scope.
Local Open Scope list_scope.
Local Open Scope Z_scope.

(* ===================================================================== *)
(** ** ECMAScript built-ins the client relies on *)
(* ===================================================================== *)

Module JS.

(** [s || d] on a possibly missing string: [undefined], [null] and the
    empty string are falsy. *)
Definition or_string (s : option string) (d : string) : string :=
  match s with
  | Some v => if String.eqb v "" then d else v
  | None => d
  end.

(** [n || d] on a possibly missing integer: [undefined] and [0] are falsy. *)
Definition or_number (n : option Z) (d : Z) : Z :=
  match n with
  | Some v => if v =? 0 then d else v
  | None => d
  end.

(** Truthiness of a [string | null] field. *)
Definition truthy (s : option string) : bool :=
  match s with
  | Some v => negb (String.eqb v "")
  | None => false
  end.

(** [[...new Set(l)]]: distinct elements in order of first occurrence. *)
Fixpoint uniq_from (seen l : list string) : list string :=
  match l with
  | [] => []
  | x :: r =>
      if existsb (String.eqb x) seen then uniq_from seen r
      else x :: uniq_from (x :: seen) r
  end.

Definition uniq (l : list string) : list string := uniq_from [] l.

Section Sort.
Context {A : Type}.
(** The comparator of [Array.prototype.sort]: negative when the first
    argument goes first, positive when the second does. *)
Variable cmp : A -> A -> Z.

(** [x] originally stands before every element of [l]; it overtakes
    nothing it does not have to (the sort is stable). *)
Fixpoint insert (x : A) (l : list A) : list A :=
  match l with
  | [] => [x]
  | y :: r => if cmp x y >? 0 then y :: insert x r else x :: y :: r
  end.

Fixpoint sort (l : list A) : list A :=
  match l with
  | [] => []
  | x :: r => insert x (sort r)
  end.
End Sort.

(** *** Numbers

    Scores are integers (a tally of +1/-1 votes) far inside the range
    where Number arithmetic on integers is exact, and are kept in [Z].
    The quotient of two of them is a genuine binary64 value. *)

Definition prec : Z := 53.
Definition emax : Z := 1024.

Definition Number_of_Z (z : Z) : spec_float := binary_normalize prec emax z 0 false.

(** [a / b] on Numbers. *)
Definition Number_div (a b : spec_float) : spec_float := SFdiv prec emax a b.

(** The integer [n] for which [n / 10 - m * 2^e] is as close to zero as
    possible, the larger one when there are two. *)
Definition nearest_tenths (m : positive) (e : Z) : Z :=
  match e with
  | Z0 => 10 * Zpos m
  | Zpos p => 10 * Zpos m * 2 ^ Zpos p
  | Zneg p => (20 * Zpos m + 2 ^ Zpos p) / (2 * 2 ^ Zpos p)
  end.

Definition digits (n : Z) : string := NilZero.string_of_uint (N.to_uint (Z.to_N n)).

(** The digits of [n] with a point before the last one. *)
Definition with_one_decimal (n : Z) : string :=
  (digits (n / 10) ++ "." ++ digits (n mod 10))%string.

(** [x.toFixed(1)].  Values of magnitude 1e21 and above, which
    [toFixed] prints in exponent notation, do not arise from integer
    scores and are printed positionally here. *)
Definition toFixed1 (x : spec_float) : string :=
  match x with
  | S754_nan => "NaN"
  | S754_infinity s => if s then "-Infinity" else "Infinity"
  | S754_zero _ => "0.0"
  | S754_finite s m e =>
      ((if s then "-" else "") ++ with_one_decimal (nearest_tenths m e))%string
  end.

End JS.

(* ===================================================================== *)
(** ** Record types ([src/lib/supabase.ts]) *)
(* ===================================================================== *)

(** Timestamps ([created_at], [updated_at]) are kept as the instant they
    denote, in milliseconds since the epoch: what [new Date(s).getTime()]
    yields on the ISO string the store sends. *)

Module Profile.
Record t := mk {
  id : string;
  username : string;
  email : string;
  is_admin : bool;
  created_at : Z;
  bio : option string;
  avatar_url : option string;
  display_name : option string;
  updated_at : option Z
}.
End Profile.

Module Post.
Record t := mk {
  id : string;
  title : string;
  content : option string;
  url : option string;
  author_id : string;
  score : Z;
  created_at : Z;
  updated_at : Z
}.

Definition set_score (n : Z) (p : t) : t :=
  mk (id p) (title p) (content p) (url p) (author_id p) n (created_at p) (updated_at p).
End Post.

Module Vote.
Record t := mk {
  id : string;
  user_id : string;
  post_id : string;
  vote_type : Z;
  created_at : Z
}.

Definition set_vote_type (vt : Z) (v : t) : t :=
  mk (id v) (user_id v) (post_id v) vt (created_at v).
End Vote.

Module PostWithAuthor.
(** [interface PostWithAuthor extends Post] with two optional fields. *)
Record t := mk {
  post : Post.t;
  author_username : option string;
  user_vote : option Z
}.
End PostWithAuthor.

(** The authenticated identity handed out by the auth context. *)
Module User.
Record t := mk { id : string }.
End User.

(* ===================================================================== *)
(** ** The record store and the requests the client sends to it *)
(* ===================================================================== *)

Module Supabase.

Record Backend := mkBackend {
  profiles : list Profile.t;
  posts : list Post.t;
  votes : list Vote.t
}.

(** The payload of [posts.insert(postData)]. *)
Record PostData := mkPostData {
  pd_title : string;
  pd_author_id : string;
  pd_content : option string;
  pd_url : option string
}.

Inductive Request :=
| VotesSelectMaybeSingle (user_id post_id : string)
    (* votes.select('*').eq('user_id', u).eq('post_id', p).maybeSingle() *)
| VotesDeleteById (id : string)
    (* votes.delete().eq('id', id) *)
| VotesUpdateById (vote_type : Z) (id : string)
    (* votes.update({ vote_type }).eq('id', id) *)
| VotesInsert (user_id post_id : string) (vote_type : Z)
    (* votes.insert({ user_id, post_id, vote_type }) *)
| VotesDeleteByPost (post_id : string)
    (* votes.delete().eq('post_id', p) *)
| VotesSelectByUser (user_id : string)
    (* votes.select('post_id, vote_type').eq('user_id', u) *)
| PostsDeleteById (id : string)
    (* posts.delete().eq('id', id) *)
| PostsSelectFeed
    (* posts.select('*').order('score', desc).order('created_at', desc) *)
| PostsInsert (postData : PostData)
    (* posts.insert(postData) *)
| ProfilesSelectIn (ids : list string)
    (* profiles.select('id, username').in('id', ids) *).

(** What the client observes besides the store: requests sent, prop
    callbacks fired, console and alert output. *)
Inductive Event :=
| Sent (r : Request)
| OnVote
| OnDelete
| OnPostCreated
| ConsoleError (label : string)
| Alert (text : string).

(** The answer of the environment to one request: [fault = Some msg]
    refuses it; otherwise it is carried out, an inserted row receiving
    [gen_id] as primary key and [now] as timestamp. *)
Record Outcome := mkOutcome {
  fault : option string;
  gen_id : string;
  now : Z
}.

(** The [{ data, error }] pair every request resolves to. *)
Record Response (A : Type) := mkResponse {
  data : option A;
  error : option string
}.
Arguments mkResponse {A}.
Arguments data {A}.
Arguments error {A}.

(** The session seen by a handler: the store, how many requests have
    been sent, and the events so far (oldest first). *)
Record Session := mkSession {
  db : Backend;
  calls : nat;
  trace : list Event
}.

Definition Async (A : Type) : Type := Session -> A * Session.

Definition ret {A} (a : A) : Async A := fun s => (a, s).

Definition bind {A B} (c : Async A) (k : A -> Async B) : Async B :=
  fun s => let (a, s1) := c s in k a s1.

Definition emit (e : Event) : Async unit :=
  fun s => (tt, mkSession (db s) (calls s) (trace s ++ [e])).

Definition when (b : bool) (c : Async unit) : Async unit :=
  if b then c else ret tt.

(** *** Filters and orderings of the store *)

Definition votes_of (u p : string) (vs : list Vote.t) : list Vote.t :=
  filter (fun v => String.eqb (Vote.user_id v) u && String.eqb (Vote.post_id v) p) vs.

(** [ORDER BY score DESC, created_at DESC] as a comparator. *)
Definition feed_order (a b : Post.t) : Z :=
  if Post.score a =? Post.score b
  then Post.created_at b - Post.created_at a
  else Post.score b - Post.score a.

(** [.maybeSingle()]: the row when there is exactly one, [null] when
    there is none, an error when there are several. *)
Definition maybeSingle {A} (rows : list A) : Response A :=
  match rows with
  | [] => mkResponse None None
  | [r] => mkResponse (Some r) None
  | _ :: _ :: _ =>
      mkResponse None (Some "JSON object requested, multiple (or no) rows returned")
  end.

(** What a served request returns and does to the store.  Column
    defaults ([score] 0, timestamps) are the store's. *)
Definition VoteDigest : Type := string * Z.      (* post_id, vote_type *)
Definition ProfileDigest : Type := string * string. (* id, username *)

(** Modelled from the spec: the store's upkeep of [score], which is not
    among the client sources (a trigger or a derived column of the
    backend).  Section 3 of the specification: "score is the sum of all
    vote values for a post, maintained by the backend".  [tally p vs] is
    that sum over the vote rows [vs]; after a change to vote rows that
    reference the posts [touched], [rescore] writes it into the rows of
    those posts and leaves every other post row alone. *)
Definition tally (p : string) (vs : list Vote.t) : Z :=
  fold_right
    (fun v acc => if String.eqb (Vote.post_id v) p then Vote.vote_type v + acc else acc)
    0 vs.

Definition rescore (touched : list string) (vs : list Vote.t) (ps : list Post.t)
  : list Post.t :=
  map (fun q =>
         if existsb (String.eqb (Post.id q)) touched
         then Post.set_score (tally (Post.id q) vs) q
         else q)
      ps.

(** The posts referenced by the vote rows with id [i]. *)
Definition posts_of_vote (i : string) (vs : list Vote.t) : list string :=
  map Vote.post_id (filter (fun v => String.eqb (Vote.id v) i) vs).

Definition insert_vote (o : Outcome) (u p : string) (vt : Z) (b : Backend) : Backend :=
  let vs := votes b ++ [Vote.mk (gen_id o) u p vt (now o)] in
  mkBackend (profiles b) (rescore [p] vs (posts b)) vs.

Definition delete_vote_by_id (i : string) (b : Backend) : Backend :=
  let vs := filter (fun v => negb (String.eqb (Vote.id v) i)) (votes b) in
  mkBackend (profiles b) (rescore (posts_of_vote i (votes b)) vs (posts b)) vs.

(** What [update({ vote_type: vt }).eq('id', i)] does to one row. *)
Definition retype (vt : Z) (i : string) (v : Vote.t) : Vote.t :=
  if String.eqb (Vote.id v) i then Vote.set_vote_type vt v else v.

Definition update_vote_by_id (vt : Z) (i : string) (b : Backend) : Backend :=
  let vs := map (retype vt i) (votes b) in
  mkBackend (profiles b) (rescore (posts_of_vote i (votes b)) vs (posts b)) vs.

Definition delete_votes_by_post (p : string) (b : Backend) : Backend :=
  let vs := filter (fun v => negb (String.eqb (Vote.post_id v) p)) (votes b) in
  mkBackend (profiles b) (rescore [p] vs (posts b)) vs.

Definition delete_post_by_id (i : string) (b : Backend) : Backend :=
  mkBackend (profiles b)
    (filter (fun p => negb (String.eqb (Post.id p) i)) (posts b))
    (votes b).

Definition insert_post (o : Outcome) (d : PostData) (b : Backend) : Backend :=
  mkBackend (profiles b)
    (posts b ++ [Post.mk (gen_id o) (pd_title d) (pd_content d) (pd_url d)
                         (pd_author_id d) 0 (now o) (now o)])
    (votes b).

Section Requests.
(** The environment: the outcome of the [n]-th request of the session. *)
Variable oracle : nat -> Outcome.

(** Send [r]; when it is served, [serve] computes the response and the
    new store. *)
Definition request {A} (r : Request)
    (serve : Outcome -> Backend -> Response A * Backend) : Async (Response A) :=
  fun s =>
    let o := oracle (calls s) in
    let t := trace s ++ [Sent r] in
    match fault o with
    | Some msg => (mkResponse None (Some msg), mkSession (db s) (S (calls s)) t)
    | None =>
        let (resp, b) := serve o (db s) in
        (resp, mkSession b (S (calls s)) t)
    end.

(** A mutation without [.select()] resolves to [data: null]. *)
Definition mutate (r : Request) (f : Outcome -> Backend -> Backend)
  : Async (Response unit) :=
  request r (fun o b => (mkResponse None None, f o b)).

Definition votes_select_maybeSingle (u p : string) : Async (Response Vote.t) :=
  request (VotesSelectMaybeSingle u p)
    (fun _ b => (maybeSingle (votes_of u p (votes b)), b)).

Definition votes_delete_by_id (i : string) : Async (Response unit) :=
  mutate (VotesDeleteById i) (fun _ => delete_vote_by_id i).

Definition votes_update_by_id (vt : Z) (i : string) : Async (Response unit) :=
  mutate (VotesUpdateById vt i) (fun _ => update_vote_by_id vt i).

Definition votes_insert (u p : string) (vt : Z) : Async (Response unit) :=
  mutate (VotesInsert u p vt) (fun o => insert_vote o u p vt).

Definition votes_delete_by_post (p : string) : Async (Response unit) :=
  mutate (VotesDeleteByPost p) (fun _ => delete_votes_by_post p).

Definition votes_select_by_user (u : string) : Async (Response (list VoteDigest)) :=
  request (VotesSelectByUser u)
    (fun _ b =>
       (mkResponse
          (Some (map (fun v => (Vote.post_id v, Vote.vote_type v))
                     (filter (fun v => String.eqb (Vote.user_id v) u) (votes b))))
          None, b)).

Definition posts_delete_by_id (i : string) : Async (Response unit) :=
  mutate (PostsDeleteById i) (fun _ => delete_post_by_id i).

Definition posts_select_feed : Async (Response (list Post.t)) :=
  request PostsSelectFeed
    (fun _ b => (mkResponse (Some (JS.sort feed_order (posts b))) None, b)).

Definition posts_insert (d : PostData) : Async (Response unit) :=
  mutate (PostsInsert d) (fun o => insert_post o d).

Definition profiles_select_in (ids : list string)
  : Async (Response (list ProfileDigest)) :=
  request (ProfilesSelectIn ids)
    (fun _ b =>
       (mkResponse
          (Some (map (fun p => (Profile.id p, Profile.username p))
                     (filter (fun p => existsb (String.eqb (Profile.id p)) ids)
                             (profiles b))))
          None, b)).
End Requests.

End Supabase.

Declare Scope async_scope.
Delimit Scope async_scope with async.
Notation "x <- c ;; k" := (Supabase.bind c (fun x => k))
  (at level 61, c at next level, right associativity) : async_scope.
Notation "c ;; k" := (Supabase.bind c (fun _ => k))
  (at level 61, right associativity) : async_scope.

Import Supabase.
Local Open Scope async_scope.

(* ===================================================================== *)
(** ** [PostCard]: voting and moderation ([src/components/PostCard.tsx]) *)
(* ===================================================================== *)

Module PostCard.

Record Props := mkProps {
  post : PostWithAuthor.t;
  onVote : bool;            (* whether the optional callback was passed *)
  onDelete : bool;
  showDeleteButton : bool
}.

(** [useAuth()]. *)
Record Auth := mkAuth {
  user : option User.t;
  profile : option Profile.t
}.

(** The two [useState] flags of the card. *)
Record State := mkState {
  voting : bool;
  deleting : bool
}.

Inductive Direction := Up | Down.

Definition vote_value (d : Direction) : Z :=
  match d with Up => 1 | Down => -1 end.

Definition opposite (d : Direction) : Direction :=
  match d with Up => Down | Down => Up end.

Definition setVoting (b : bool) (st : State) : State := mkState b (deleting st).
Definition setDeleting (b : bool) (st : State) : State := mkState (voting st) b.

(** [profile?.is_admin] *)
Definition is_admin (a : Auth) : bool :=
  match profile a with
  | Some p => Profile.is_admin p
  | None => false
  end.

Section Handlers.
Variable oracle : nat -> Outcome.
Variable auth : Auth.
Variable props : Props.

Definition post_id : string := Post.id (PostWithAuthor.post (post props)).

(** The body of [handleVote] past its guard, for the signed-in user
    [u].  While it awaits the store the card is in state
    [setVoting true st]. *)
Definition castVote (u : User.t) (voteType : Z) (st : State) : Async State :=
  let st1 := setVoting true st in
  r <- votes_select_maybeSingle oracle (User.id u) post_id ;;
  match data r with
  | Some existingVote =>
      if Vote.vote_type existingVote =? voteType
      then votes_delete_by_id oracle (Vote.id existingVote)
      else votes_update_by_id oracle voteType (Vote.id existingVote)
  | None =>
      votes_insert oracle (User.id u) post_id voteType
  end ;;
  when (onVote props) (emit OnVote) ;;
  ret (setVoting false st1).

Definition handleVote (voteType : Z) (st : State) : Async State :=
  match user auth with
  | None => ret st
  | Some u => if voting st then ret st else castVote u voteType st
  end.

(** The two arrows of the card: [onClick={() => handleVote(1)}] and
    [onClick={() => handleVote(-1)}]. *)
Definition clickArrow (d : Direction) (st : State) : Async State :=
  handleVote (vote_value d) st.

(** [confirmed] is the answer given to [window.confirm]. *)
Definition handleDelete (confirmed : bool) (st : State) : Async State :=
  if negb (is_admin auth) || deleting st then ret st
  else if negb confirmed then ret st
  else
    let st1 := setDeleting true st in
    rv <- votes_delete_by_post oracle post_id ;;
    when (match error rv with Some _ => true | None => false end)
         (emit (ConsoleError "Error deleting votes:")) ;;
    rp <- posts_delete_by_id oracle post_id ;;
    match error rp with
    | Some message =>
        emit (ConsoleError "Error deleting post:") ;;
        emit (Alert ("Failed to delete post: " ++
                     JS.or_string (Some message) "Unknown error")%string)
    | None => when (onDelete props) (emit OnDelete)
    end ;;
    ret (setDeleting false st1).
End Handlers.

End PostCard.

(* ===================================================================== *)
(** ** [CreatePostForm] ([src/components/CreatePostForm.tsx]) *)
(* ===================================================================== *)

Module CreatePostForm.

Inductive PostType := text | link.

Record State := mkState {
  postType : PostType;
  title : string;
  content : string;
  url : string;
  loading : bool;
  error : string
}.

Section Handlers.
Variable oracle : nat -> Outcome.
(** [String.prototype.trim]. *)
Variable trim : string -> string.
Variable onPostCreated : bool.

Definition postData (u : User.t) (st : State) : PostData :=
  mkPostData
    (trim (title st))
    (User.id u)
    (match postType st with text => Some (trim (content st)) | link => None end)
    (match postType st with link => Some (trim (url st)) | text => None end).

Definition handleSubmit (user : option User.t) (st : State) : Async State :=
  match user with
  | None => ret st
  | Some u =>
      r <- posts_insert oracle (postData u st) ;;
      match Supabase.error r with
      | Some message =>
          ret (mkState (postType st) (title st) (content st) (url st) false
                 (JS.or_string (Some message) "Failed to create post"))
      | None =>
          when onPostCreated (emit OnPostCreated) ;;
          ret (mkState (postType st) "" "" "" false "")
      end
  end.
End Handlers.

End CreatePostForm.

(* ===================================================================== *)
(** ** [FeedPage] ([src/pages/FeedPage.tsx]) *)
(* ===================================================================== *)

Module FeedPage.

Record State := mkState {
  posts : list PostWithAuthor.t;
  loading : bool;
  refreshing : bool
}.

(** [profiles?.find(p => p.id === post.author_id)?.username || 'Unknown'] *)
Definition author_username (profiles : option (list ProfileDigest)) (post : Post.t)
  : string :=
  JS.or_string
    (match profiles with
     | Some ps =>
         option_map snd (find (fun p => String.eqb (fst p) (Post.author_id post)) ps)
     | None => None
     end)
    "Unknown".

(** [userVotes.find(v => v.post_id === post.id)?.vote_type || 0] *)
Definition user_vote (userVotes : list VoteDigest) (post : Post.t) : Z :=
  JS.or_number
    (option_map snd (find (fun v => String.eqb (fst v) (Post.id post)) userVotes))
    0.

Definition combine (profiles : option (list ProfileDigest))
    (userVotes : list VoteDigest) (postsData : list Post.t) : list PostWithAuthor.t :=
  map (fun post =>
         PostWithAuthor.mk post
           (Some (author_username profiles post))
           (Some (user_vote userVotes post)))
      postsData.

Section Handlers.
Variable oracle : nat -> Outcome.
Variable user : option User.t.

Definition fetchUserVotes : Async (list VoteDigest) :=
  match user with
  | Some u =>
      r <- votes_select_by_user oracle (User.id u) ;;
      ret (match data r with Some votesData => votesData | None => [] end)
  | None => ret []
  end.

Definition loadPosts (st : State) : Async State :=
  r <- posts_select_feed oracle ;;
  match error r with
  | Some _ =>
      emit (ConsoleError "Error loading posts:") ;;
      ret (mkState (posts st) false false)
  | None =>
      match data r with
      | Some ((_ :: _) as postsData) =>
          let authorIds := JS.uniq (map Post.author_id postsData) in
          rp <- profiles_select_in oracle authorIds ;;
          userVotes <- fetchUserVotes ;;
          ret (mkState (combine (data rp) userVotes postsData) false false)
      | _ => ret (mkState [] false false)
      end
  end.
End Handlers.

End FeedPage.

(* ===================================================================== *)
(** ** [ProfilePage] ([src/pages/ProfilePage.tsx]) *)
(* ===================================================================== *)

Module ProfilePage.

Inductive SortType := newest | oldest | highest | lowest.
Inductive FilterType := all | text | link.

Definition score (p : PostWithAuthor.t) : Z := Post.score (PostWithAuthor.post p).
Definition created_at (p : PostWithAuthor.t) : Z :=
  Post.created_at (PostWithAuthor.post p).
Definition content (p : PostWithAuthor.t) : option string :=
  Post.content (PostWithAuthor.post p).
Definition url (p : PostWithAuthor.t) : option string :=
  Post.url (PostWithAuthor.post p).

(** [p => p.content && !p.url] *)
Definition is_text (p : PostWithAuthor.t) : bool :=
  JS.truthy (content p) && negb (JS.truthy (url p)).

(** [p => p.url] *)
Definition is_link (p : PostWithAuthor.t) : bool := JS.truthy (url p).

Definition applyFilter (filterBy : FilterType) (posts : list PostWithAuthor.t)
  : list PostWithAuthor.t :=
  match filterBy with
  | text => filter is_text posts
  | link => filter is_link posts
  | all => posts
  end.

Definition compare (sortBy : SortType) (a b : PostWithAuthor.t) : Z :=
  match sortBy with
  | newest => created_at b - created_at a
  | oldest => created_at a - created_at b
  | highest => score b - score a
  | lowest => score a - score b
  end.

(** The value handed to [setFilteredPosts]. *)
Definition applyFiltersAndSort (posts : list PostWithAuthor.t)
    (sortBy : SortType) (filterBy : FilterType) : list PostWithAuthor.t :=
  JS.sort (compare sortBy) (applyFilter filterBy posts).

(** [posts.reduce((sum, post) => sum + post.score, 0)] *)
Definition totalKarma (posts : list PostWithAuthor.t) : Z :=
  fold_left (fun sum post => sum + score post) posts 0.

(** [posts.length > 0 ? (totalKarma / posts.length).toFixed(1) : '0'] *)
Definition avgScore (posts : list PostWithAuthor.t) : string :=
  if (0 <? List.length posts)%nat
  then JS.toFixed1
         (JS.Number_div (JS.Number_of_Z (totalKarma posts))
                        (JS.Number_of_Z (Z.of_nat (List.length posts))))
  else "0".

(** [posts.length > 0
      ? posts.reduce((max, post) => post.score > max.score ? post : max)
      : null] *)
Definition topPost (posts : list PostWithAuthor.t) : option PostWithAuthor.t :=
  match posts with
  | [] => None
  | first :: rest =>
      Some (fold_left (fun max post => if score post >? score max then post else max)
                      rest first)
  end.

Record Stats := mkStats {
  postCount : nat;                      (* posts.length *)
  karma : Z;                            (* totalKarma *)
  average : string;                     (* avgScore *)
  top : option PostWithAuthor.t         (* topPost *)
}.

Definition stats (posts : list PostWithAuthor.t) : Stats :=
  mkStats (List.length posts) (totalKarma posts) (avgScore posts) (topPost posts).

End ProfilePage.

(* ===================================================================== *)
(** * Vocabulary of the properties *)
(* ===================================================================== *)

(** The requests among a list of events, in order. *)
Fixpoint sent (t : list Event) : list Request :=
  match t with
  | [] => []
  | Sent r :: t' => r :: sent t'
  | _ :: t' => sent t'
  end.

(** The [n]-th request of the session is served, not refused. *)
Definition served (oracle : nat -> Outcome) (n : nat) : Prop :=
  fault (oracle n) = None.

(** At most one vote row per (user, post) pair. *)
Definition one_vote_per_pair (vs : list Vote.t) : Prop :=
  forall u p, (List.length (votes_of u p vs) <= 1)%nat.

(** The vote rows that reference post [p]. *)
Definition votes_on (p : string) (vs : list Vote.t) : list Vote.t :=
  filter (fun v => String.eqb (Vote.post_id v) p) vs.

(** The events a handler adds to the trace when its card notifies its
    parent. *)
Definition notify (b : bool) (e : Event) : list Event := if b then [e] else [].

(** Unfolds one step of a handler down to the session it returns. *)
Ltac run_async :=
  unfold bind, ret, emit, when, mutate, request, served in *; simpl.

(** A comparator, read as a relation: [a] may stand before [b]. *)
Definition goes_before {A} (cmp : A -> A -> Z) (a b : A) : Prop := cmp a b <= 0.

(** The requests sent between session [s] and its continuation [s']. *)
Definition issued (s s' : Session) : list Request :=
  sent (skipn (List.length (trace s)) (trace s')).

(** Feed order on two posts: [a] may stand before [b]. *)
Definition feed_before (a b : Post.t) : Prop :=
  Post.score b < Post.score a \/
  (Post.score a = Post.score b /\ Post.created_at b <= Post.created_at a).

(** What the second request of [loadPosts] resolves to: the id and
    username of the profiles of the given authors, or [null] when refused. *)
Definition profiles_reply (oracle : nat -> Outcome) (s : Session)
    (postsData : list Post.t) : option (list ProfileDigest) :=
  match fault (oracle (S (calls s))) with
  | Some _ => None
  | None =>
      Some (map (fun p => (Profile.id p, Profile.username p))
              (filter (fun p => existsb (String.eqb (Profile.id p))
                                  (JS.uniq (map Post.author_id postsData)))
                      (profiles (db s))))
  end.

(** The [userVotes] of [loadPosts]: the votes of the signed-in user, or
    nothing when nobody is signed in or the request is refused. *)
Definition votes_reply (oracle : nat -> Outcome) (user : option User.t) (s : Session)
  : list VoteDigest :=
  match user with
  | None => []
  | Some u =>
      match fault (oracle (S (S (calls s)))) with
      | Some _ => []
      | None =>
          map (fun v => (Vote.post_id v, Vote.vote_type v))
            (filter (fun v => String.eqb (Vote.user_id v) (User.id u)) (votes (db s)))
      end
  end.

(** The profile row of the author of [p], if there is one. *)
Definition author_profile (b : Backend) (p : Post.t) : option Profile.t :=
  find (fun pr => String.eqb (Profile.id pr) (Post.author_id p)) (profiles b).

(** The (first) vote row of user [u] on post [p], if there is one. *)
Definition current_vote (b : Backend) (u : User.t) (p : Post.t) : option Vote.t :=
  find (fun v => String.eqb (Vote.user_id v) (User.id u)
                 && String.eqb (Vote.post_id v) (Post.id p)) (votes b).

(** The sum of the scores of a list of posts. *)
Definition sum_scores (posts : list PostWithAuthor.t) : Z :=
  fold_right (fun p acc => ProfilePage.score p + acc) 0 posts.

(** The binary64 quotient [a / b] of two integers, printed by
    [toFixed(1)]. *)
Definition mean_to_one_decimal (a b : Z) : string :=
  JS.toFixed1 (JS.Number_div (JS.Number_of_Z a) (JS.Number_of_Z b)).

(** [n] tenths is as near to the quotient [a / b] as a whole number of
    tenths can be: [| a / b - n / 10 | <= 1 / 20], stated without
    fractions for a positive [b]. *)
Definition nearest_tenth_of_quotient (a b n : Z) : Prop :=
  2 * Z.abs (10 * a - n * b) <= b.

(** [n] is the integer nearest to ten times [m * 2^e], the larger one
    when two are equally near (stated without fractions). *)
Definition nearest_tenth (m : positive) (e : Z) (n : Z) : Prop :=
  match e with
  | Zneg p => - 2 ^ Zpos p <= 20 * Zpos m - 2 * 2 ^ Zpos p * n < 2 ^ Zpos p
  | _ => n = 10 * Zpos m * 2 ^ e
  end.

(** [str] is the binary64 value [x] written with one decimal: a sign when
    [x] is negative, the digits of the nearest number of tenths, and a
    point before the last digit. *)
Definition written_with_one_decimal (x : spec_float) (str : string) : Prop :=
  match x with
  | S754_zero _ => str = "0.0"%string
  | S754_finite s m e =>
      exists n, nearest_tenth m e n /\ 0 <= n /\
        str = ((if s then "-" else "") ++ JS.digits (n / 10) ++ "."
               ++ JS.digits (n mod 10))%string
  | S754_infinity s => str = (if s then "-Infinity" else "Infinity")%string
  | S754_nan => str = "NaN"%string
  end.

(** The kind invariant of a post payload: a text post has no URL, a link
    post has no content, and the two are never both present. *)
Definition exclusive_kind (ty : CreatePostForm.PostType) (c u : option string) : Prop :=
  (ty = CreatePostForm.text -> u = None) /\
  (ty = CreatePostForm.link -> c = None) /\
  ~ (c <> None /\ u <> None).

(* ===================================================================== *)
(** * Sample data *)
(* ===================================================================== *)

Module Sample.

Definition alice : User.t := User.mk "u-alice".

Definition hello : Post.t :=
  Post.mk "p-1" "Hello" (Some "first post") None "u-bob" 1 1000 1000.

Definition card : PostCard.Props :=
  PostCard.mkProps (PostWithAuthor.mk hello (Some "bob") (Some 0)) true true true.

Definition signed_in : PostCard.Auth := PostCard.mkAuth (Some alice) None.

Definition idle : PostCard.State := PostCard.mkState false false.

(** A store that serves every request, numbering the rows it creates. *)
Definition serving (n : nat) : Outcome :=
  mkOutcome None ("row-" ++ JS.digits (Z.of_nat n))%string (2000 + Z.of_nat n).

Definition down_by_alice : Vote.t := Vote.mk "v-7" "u-alice" "p-1" (-1) 1500.
Definition up_by_carol : Vote.t := Vote.mk "v-8" "u-carol" "p-1" 1 1600.

Definition fresh (b : Backend) : Session := mkSession b 0 [].

Definition root : Profile.t :=
  Profile.mk "u-root" "root" "root@example.org" true 10 None None None None.

Definition moderator : PostCard.Auth :=
  PostCard.mkAuth (Some (User.mk "u-root")) (Some root).

(** A store that refuses the first request of the session only. *)
Definition first_refused (n : nat) : Outcome :=
  match n with
  | O => mkOutcome (Some "permission denied") "" 0
  | _ => serving n
  end.

Definition no_votes : Backend := mkBackend [] [hello] [].
Definition some_votes : Backend := mkBackend [] [hello] [down_by_alice; up_by_carol].

Definition bob : Profile.t :=
  Profile.mk "u-bob" "bob" "bob@example.org" false 20 None None (Some "Bobby") None.

Definition ghost_post : Post.t :=
  Post.mk "p-2" "Orphan" (Some "") None "u-ghost" 5 900 900.

Definition link_post : Post.t :=
  Post.mk "p-3" "A link" None (Some "https://example.org") "u-bob" 1 1200 1200.

(** Two profiles, three posts (one of an author without profile), two
    votes on the first post. *)
Definition board : Backend :=
  mkBackend [bob; root] [hello; ghost_post; link_post] [down_by_alice; up_by_carol].

Definition empty_feed : FeedPage.State := FeedPage.mkState [] true false.

(** A text post submitted with an empty body: its content is the empty
    string, not [null]. *)
Definition title_only : PostWithAuthor.t :=
  PostWithAuthor.mk ghost_post (Some "Unknown") (Some 0).

Definition scored (n : Z) : PostWithAuthor.t :=
  PostWithAuthor.mk (Post.mk "p" "t" None None "u-bob" n 0 0) (Some "bob") (Some 0).

End Sample.

(* ===================================================================== *)
(** ** What a card shows ([src/components/PostCard.tsx], render part) *)
(* ===================================================================== *)

Module PostCardView.

(** [const userVote = post.user_vote || 0] *)
Definition userVote (props : PostCard.Props) : Z :=
  JS.or_number (PostWithAuthor.user_vote (PostCard.post props)) 0.

(** [disabled={!user || voting}] on both arrows. *)
Definition arrowsDisabled (auth : PostCard.Auth) (st : PostCard.State) : bool :=
  match PostCard.user auth with
  | None => true
  | Some _ => PostCard.voting st
  end.

(** [userVote === 1] and [userVote === -1]: the arrow drawn as chosen. *)
Definition arrowHighlighted (d : PostCard.Direction) (props : PostCard.Props) : bool :=
  userVote props =? PostCard.vote_value d.

(** [showDeleteButton && profile?.is_admin] *)
Definition deleteButtonShown (auth : PostCard.Auth) (props : PostCard.Props) : bool :=
  PostCard.showDeleteButton props && PostCard.is_admin auth.

Section TimeAgo.
(** [Date.prototype.toLocaleDateString], on the instant of the date. *)
Variable toLocaleDateString : Z -> string.

(** [getTimeAgo(dateString)], with [now] the instant of [new Date()] and
    [date] the instant of [new Date(dateString)], both in milliseconds. *)
Definition getTimeAgo (now date : Z) : string :=
  let seconds := (now - date) / 1000 in
  if seconds <? 60 then "just now"
  else if seconds <? 3600 then (JS.digits (seconds / 60) ++ "m ago")%string
  else if seconds <? 86400 then (JS.digits (seconds / 3600) ++ "h ago")%string
  else if seconds <? 604800 then (JS.digits (seconds / 86400) ++ "d ago")%string
  else toLocaleDateString date.
End TimeAgo.

End PostCardView.

(* ===================================================================== *)
(** ** The submit button ([src/components/CreatePostForm.tsx], render part) *)
(* ===================================================================== *)

Module CreatePostFormView.

(** [disabled={loading || !title.trim() || (postType === 'link' && !url.trim())}] *)
Definition submitDisabled (trim : string -> string) (st : CreatePostForm.State) : bool :=
  CreatePostForm.loading st
  || String.eqb (trim (CreatePostForm.title st)) ""
  || (match CreatePostForm.postType st with
      | CreatePostForm.link => String.eqb (trim (CreatePostForm.url st)) ""
      | CreatePostForm.text => false
      end).

End CreatePostFormView.

(* ===================================================================== *)
(** ** Vocabulary of the further properties *)
(* ===================================================================== *)

(** What [existingVote] is bound to in [handleVote]: the row the read
    resolves to, [null] when the read is refused, finds no row or finds
    several. *)
Definition existing_vote (oracle : nat -> Outcome) (s : Session) (u p : string)
  : option Vote.t :=
  match fault (oracle (calls s)) with
  | Some _ => None
  | None => data (maybeSingle (votes_of u p (votes (db s))))
  end.

(** The effect of a served mutation on the store. *)
Definition perform (o : Outcome) (r : Request) (b : Backend) : Backend :=
  match r with
  | VotesDeleteById i => delete_vote_by_id i b
  | VotesUpdateById vt i => update_vote_by_id vt i b
  | VotesInsert u p vt => insert_vote o u p vt b
  | VotesDeleteByPost p => delete_votes_by_post p b
  | PostsDeleteById i => delete_post_by_id i b
  | PostsInsert d => insert_post o d b
  | _ => b
  end.

(** The store after the [n]-th request [r], served or refused. *)
Definition after_request (oracle : nat -> Outcome) (n : nat) (r : Request) (b : Backend)
  : Backend :=
  match fault (oracle n) with
  | Some _ => b
  | None => perform (oracle n) r b
  end.

(** The mutation of a vote by user [u] on post [p] with value [vt]. *)
Definition vote_mutation (existing : option Vote.t) (u p : string) (vt : Z) : Request :=
  match existing with
  | Some e =>
      if Vote.vote_type e =? vt then VotesDeleteById (Vote.id e)
      else VotesUpdateById vt (Vote.id e)
  | None => VotesInsert u p vt
  end.

(** The requests that address the votes table. *)
Definition on_votes (r : Request) : bool :=
  match r with
  | VotesSelectMaybeSingle _ _ | VotesDeleteById _ | VotesUpdateById _ _
  | VotesInsert _ _ _ | VotesDeleteByPost _ | VotesSelectByUser _ => true
  | _ => false
  end.

(** A post row without its score. *)
Definition unscored (p : Post.t) : Post.t := Post.set_score 0 p.

(** The events added between session [s] and its continuation [s']. *)
Definition added (s s' : Session) : list Event :=
  skipn (List.length (trace s)) (trace s').

Module Scenario.

(** A store that refuses the second request of the session only. *)
Definition second_refused (n : nat) : Outcome :=
  match n with
  | 1%nat => mkOutcome (Some "") "" 0
  | _ => Sample.serving n
  end.

(** A store that refuses the third request of the session only. *)
Definition third_refused (n : nat) : Outcome :=
  match n with
  | 2%nat => mkOutcome (Some "network error") "" 0
  | _ => Sample.serving n
  end.

(** A store that refuses every request. *)
Definition refusing (n : nat) : Outcome := mkOutcome (Some "offline") "" 0.

Definition anonymous : PostCard.Auth := PostCard.mkAuth None None.

Definition up_by_alice : Vote.t := Vote.mk "v-9" "u-alice" "p-1" 1 1700.

(** Alice has two rows on the same post. *)
Definition doubled : Backend :=
  mkBackend [] [Sample.hello] [Sample.down_by_alice; up_by_alice].

End Scenario.

(* ===================================================================== *)
(** ** The reads of the profile and admin pages *)
(* ===================================================================== *)

(** These pages only read.  A read leaves the store alone, so it is a
    function of the store and of the outcome the environment gives to
    the request. *)
Module Reads.

Definition answer {A} (o : Outcome) (r : Response A) : Response A :=
  match fault o with
  | Some msg => mkResponse None (Some msg)
  | None => r
  end.

(** [.single()]: the row when there is exactly one, an error otherwise. *)
Definition single {A} (rows : list A) : Response A :=
  match rows with
  | [r] => mkResponse (Some r) None
  | _ => mkResponse None (Some "JSON object requested, multiple (or no) rows returned")
  end.

(** [ORDER BY created_at DESC] as a comparator. *)
Definition newest_first (a b : Post.t) : Z := Post.created_at b - Post.created_at a.

(** [profiles.select('*').eq('username', name).single()] *)
Definition profile_by_username (o : Outcome) (name : string) (b : Backend)
  : Response Profile.t :=
  answer o (single (filter (fun p => String.eqb (Profile.username p) name) (profiles b))).

(** [posts.select('*').eq('author_id', a).order('created_at', desc)] *)
Definition posts_by_author (o : Outcome) (a : string) (b : Backend)
  : Response (list Post.t) :=
  answer o
    (mkResponse
       (Some (JS.sort newest_first
                (filter (fun p => String.eqb (Post.author_id p) a) (posts b))))
       None).

(** [posts.select('*').order('created_at', desc)] *)
Definition posts_newest_first (o : Outcome) (b : Backend) : Response (list Post.t) :=
  answer o (mkResponse (Some (JS.sort newest_first (posts b))) None).

(** [votes.select('post_id, vote_type').eq('user_id', u)] *)
Definition votes_by_user (o : Outcome) (u : string) (b : Backend)
  : Response (list VoteDigest) :=
  answer o
    (mkResponse
       (Some (map (fun v => (Vote.post_id v, Vote.vote_type v))
                (filter (fun v => String.eqb (Vote.user_id v) u) (votes b))))
       None).

(** [profiles.select('id, username').in('id', ids)] *)
Definition profiles_in (o : Outcome) (ids : list string) (b : Backend)
  : Response (list ProfileDigest) :=
  answer o
    (mkResponse
       (Some (map (fun p => (Profile.id p, Profile.username p))
                (filter (fun p => existsb (String.eqb (Profile.id p)) ids)
                        (profiles b))))
       None).

End Reads.

(* ===================================================================== *)
(** ** [ProfilePage.loadProfile] ([src/pages/ProfilePage.tsx]) *)
(* ===================================================================== *)

Module ProfilePageLoad.

Record State := mkState {
  profile : option Profile.t;
  posts : list PostWithAuthor.t;
  loading : bool
}.

(** The [userVotes] of [loadProfile]. *)
Definition fetchUserVotes (o : Outcome) (user : option User.t) (b : Backend)
  : list VoteDigest :=
  match user with
  | Some u =>
      match data (Reads.votes_by_user o (User.id u) b) with
      | Some votesData => votesData
      | None => []
      end
  | None => []
  end.

(** [loadProfile()] for the profile named [targetUsername]; [o1], [o2]
    and [o3] are the outcomes of its three requests.  It returns the new
    state of the page and what it wrote to the console. *)
Definition loadProfile (o1 o2 o3 : Outcome) (user : option User.t)
    (targetUsername : string) (b : Backend) (st : State) : State * list Event :=
  let failed := [ConsoleError "Error loading profile:"] in
  let rp := Reads.profile_by_username o1 targetUsername b in
  match error rp with
  | Some _ => (mkState (profile st) (posts st) false, failed)
  | None =>
      match data rp with
      | None => (mkState None (posts st) false, failed)
      | Some profileData =>
          let rposts := Reads.posts_by_author o2 (Profile.id profileData) b in
          match error rposts with
          | Some _ => (mkState (Some profileData) (posts st) false, failed)
          | None =>
              let userVotes := fetchUserVotes o3 user b in
              (mkState (Some profileData)
                 (map (fun post =>
                         PostWithAuthor.mk post
                           (Some (Profile.username profileData))
                           (Some (FeedPage.user_vote userVotes post)))
                      (match data rposts with Some postsData => postsData | None => [] end))
                 false,
               [])
          end
      end
  end.

End ProfilePageLoad.

(* ===================================================================== *)
(** ** [AdminPage] ([src/pages/AdminPage.tsx]) *)
(* ===================================================================== *)

Module AdminPage.

Record State := mkState {
  posts : list PostWithAuthor.t;
  loading : bool
}.

(** [loadPosts()]; [o1] and [o2] are the outcomes of its two requests. *)
Definition loadPosts (o1 o2 : Outcome) (b : Backend) (st : State) : State * list Event :=
  let r := Reads.posts_newest_first o1 b in
  match error r with
  | Some _ => (mkState (posts st) false, [ConsoleError "Error loading posts:"])
  | None =>
      match data r with
      | Some ((_ :: _) as postsData) =>
          let authorIds := JS.uniq (map Post.author_id postsData) in
          let rp := Reads.profiles_in o2 authorIds b in
          (mkState
             (map (fun post =>
                     PostWithAuthor.mk post
                       (Some (FeedPage.author_username (data rp) post))
                       None)
                  postsData)
             false,
           [])
      | _ => (mkState [] false, [])
      end
  end.

(** [<PostCard post={post} onDelete={loadPosts} showDeleteButton={true} />] *)
Definition card (post : PostWithAuthor.t) : PostCard.Props :=
  PostCard.mkProps post false true true.

End AdminPage.

(** How the profile page orders its posts under each selection. *)
Definition profile_order (sortBy : ProfilePage.SortType) (a b : PostWithAuthor.t) : Prop :=
  match sortBy with
  | ProfilePage.newest => ProfilePage.created_at b <= ProfilePage.created_at a
  | ProfilePage.oldest => ProfilePage.created_at a <= ProfilePage.created_at b
  | ProfilePage.highest => ProfilePage.score b <= ProfilePage.score a
  | ProfilePage.lowest => ProfilePage.score a <= ProfilePage.score b
  end.

(** The field the selection sorts by. *)
Definition sort_key (sortBy : ProfilePage.SortType) (a : PostWithAuthor.t) : Z :=
  match sortBy with
  | ProfilePage.newest | ProfilePage.oldest => ProfilePage.created_at a
  | ProfilePage.highest | ProfilePage.lowest => ProfilePage.score a
  end.

(** The posts of the store written by [author]. *)
Definition posts_of_author (author : string) (b : Backend) : list Post.t :=
  filter (fun p => String.eqb (Post.author_id p) author) (posts b).

(** The sum of the scores of store rows. *)
Definition sum_post_scores (ps : list Post.t) : Z :=
  fold_right (fun p acc => Post.score p + acc) 0 ps.

(** Newest first. *)
Definition newer_first (a b : Post.t) : Prop := Post.created_at b <= Post.created_at a.
(* ===================================================================== *)
(** * Properties *)
(* ===================================================================== *)

(** ** Lists *)

Lemma sent_app t1 t2 : sent (t1 ++ t2) = sent t1 ++ sent t2.
Proof.
  induction t1 as [|e t1 IH]; simpl; [reflexivity|].
  destruct e; simpl; now rewrite IH.
Qed.

Lemma filter_filter_comm {A} (f g : A -> bool) l :
  filter f (filter g l) = filter g (filter f l).
Proof.
  induction l as [|x l IH]; simpl; [reflexivity|].
  destruct (f x) eqn:Ef, (g x) eqn:Eg; simpl; rewrite ?Ef, ?Eg, IH; reflexivity.
Qed.

Lemma filter_map_stable {A} (f : A -> bool) (h : A -> A) l :
  (forall x, f (h x) = f x) ->
  filter f (map h l) = map h (filter f l).
Proof.
  intros Hh. induction l as [|x l IH]; simpl; [reflexivity|].
  rewrite Hh. destruct (f x); simpl; now rewrite IH.
Qed.

Lemma filter_length_le {A} (f : A -> bool) l :
  (List.length (filter f l) <= List.length l)%nat.
Proof.
  induction l as [|x l IH]; simpl; [lia|]. destruct (f x); simpl; lia.
Qed.

Lemma filter_split_length {A} (f : A -> bool) l :
  (List.length (filter f l) + List.length (filter (fun x => negb (f x)) l)
   = List.length l)%nat.
Proof.
  induction l as [|x l IH]; simpl; [reflexivity|].
  destruct (f x); simpl; lia.
Qed.

Lemma filter_none {A} (f : A -> bool) l :
  (forall x, In x l -> f x = false) -> filter f l = [].
Proof.
  induction l as [|x l IH]; simpl; intros H; [reflexivity|].
  rewrite (H x (or_introl eq_refl)). apply IH. intros y Hy. apply H. now right.
Qed.

Lemma filter_all {A} (f : A -> bool) l :
  (forall x, In x l -> f x = true) -> filter f l = l.
Proof.
  induction l as [|x l IH]; simpl; intros H; [reflexivity|].
  rewrite (H x (or_introl eq_refl)). f_equal. apply IH. intros y Hy. apply H. now right.
Qed.

(** ** The upkeep of scores *)

Lemma rescore_ids touched vs ps : map Post.id (rescore touched vs ps) = map Post.id ps.
Proof.
  unfold rescore. rewrite map_map. apply map_ext. intros q.
  destruct (existsb (String.eqb (Post.id q)) touched); reflexivity.
Qed.

Lemma rescore_unscored touched vs ps :
  map (Post.set_score 0) (rescore touched vs ps) = map (Post.set_score 0) ps.
Proof.
  unfold rescore. rewrite map_map. apply map_ext. intros q.
  destruct (existsb (String.eqb (Post.id q)) touched); reflexivity.
Qed.

Lemma rescore_keeps touched vs ps p :
  In p ps -> existsb (String.eqb (Post.id p)) touched = false ->
  In p (rescore touched vs ps).
Proof.
  intros Hin Hout. unfold rescore. apply in_map_iff. exists p.
  rewrite Hout. auto.
Qed.

(** Rescoring a post does not matter once the post is filtered out. *)
Lemma filter_rescore pid vs ps :
  filter (fun p => negb (String.eqb (Post.id p) pid)) (rescore [pid] vs ps)
  = filter (fun p => negb (String.eqb (Post.id p) pid)) ps.
Proof.
  induction ps as [|q ps IH]; [reflexivity|].
  change (rescore [pid] vs (q :: ps))
    with ((if existsb (String.eqb (Post.id q)) [pid]
           then Post.set_score (tally (Post.id q) vs) q else q)
          :: rescore [pid] vs ps).
  cbn [existsb]. rewrite orb_false_r.
  destruct (String.eqb (Post.id q) pid) eqn:E; cbn [filter Post.set_score Post.id];
    rewrite E, IH; reflexivity.
Qed.

(** ** The vote table under the three mutations *)

Section VoteTable.
Variables (u p : string).

Lemma votes_of_In v vs :
  In v (votes_of u p vs) <-> In v vs /\ Vote.user_id v = u /\ Vote.post_id v = p.
Proof.
  unfold votes_of. rewrite filter_In, andb_true_iff, !String.eqb_eq. tauto.
Qed.

Lemma votes_of_app vs ws :
  votes_of u p (vs ++ ws) = votes_of u p vs ++ votes_of u p ws.
Proof. apply filter_app. Qed.

Lemma votes_of_delete i vs :
  votes_of u p (filter (fun v => negb (String.eqb (Vote.id v) i)) vs)
  = filter (fun v => negb (String.eqb (Vote.id v) i)) (votes_of u p vs).
Proof. apply filter_filter_comm. Qed.

Lemma votes_of_update vt i vs :
  votes_of u p (map (retype vt i) vs) = map (retype vt i) (votes_of u p vs).
Proof.
  apply filter_map_stable. intros x. unfold retype.
  destruct (String.eqb (Vote.id x) i); reflexivity.
Qed.
End VoteTable.

Lemma one_vote_per_pair_delete i vs :
  one_vote_per_pair vs ->
  one_vote_per_pair (filter (fun v => negb (String.eqb (Vote.id v) i)) vs).
Proof.
  intros H u p. rewrite votes_of_delete.
  eapply Nat.le_trans; [apply filter_length_le | apply H].
Qed.

Lemma one_vote_per_pair_update vt i vs :
  one_vote_per_pair vs ->
  one_vote_per_pair
    (map (retype vt i) vs).
Proof.
  intros H u p. rewrite votes_of_update, length_map. apply H.
Qed.

Lemma one_vote_per_pair_insert o u p vt vs :
  one_vote_per_pair vs ->
  votes_of u p vs = [] ->
  one_vote_per_pair (vs ++ [Vote.mk (gen_id o) u p vt (now o)]).
Proof.
  intros H Hnone u' p'. rewrite votes_of_app, length_app.
  unfold votes_of at 2. simpl.
  destruct (String.eqb u u') eqn:Eu, (String.eqb p p') eqn:Ep; simpl;
    try (specialize (H u' p'); lia).
  apply String.eqb_eq in Eu, Ep. subst u' p'. rewrite Hnone. simpl. lia.
Qed.

Lemma opposite_differs d :
  PostCard.vote_value (PostCard.opposite d) <> PostCard.vote_value d.
Proof. destruct d; discriminate. Qed.


(** ** Running [handleVote] *)

(** The read of [castVote] and what it resolves to. *)
Lemma castVote_read oracle props u vt st s :
  served oracle (calls s) ->
  PostCard.castVote oracle props u vt st s
  = (let s1 := mkSession (db s) (S (calls s))
                 (trace s ++ [Sent (VotesSelectMaybeSingle (User.id u) (PostCard.post_id props))]) in
     let (_, s2) :=
       match data (maybeSingle (votes_of (User.id u) (PostCard.post_id props) (votes (db s)))) with
       | Some existingVote =>
           if Vote.vote_type existingVote =? vt
           then votes_delete_by_id oracle (Vote.id existingVote) s1
           else votes_update_by_id oracle vt (Vote.id existingVote) s1
       | None => votes_insert oracle (User.id u) (PostCard.post_id props) vt s1
       end in
     (PostCard.setVoting false (PostCard.setVoting true st),
      mkSession (db s2) (calls s2) (trace s2 ++ notify (PostCard.onVote props) OnVote))).
Proof.
  intros Hread. unfold PostCard.castVote, votes_select_maybeSingle.
  run_async. rewrite Hread. simpl.
  destruct (data (maybeSingle _)) as [e|]; [destruct (Vote.vote_type e =? vt)|];
    match goal with |- (let (_, _) := ?m in _) = _ => destruct m as [r [b c t]] end;
    simpl; destruct (PostCard.onVote props); simpl; rewrite ?app_nil_r; reflexivity.
Qed.

Lemma mutate_served oracle r f s :
  served oracle (calls s) ->
  mutate oracle r f s
  = (mkResponse None None,
     mkSession (f (oracle (calls s)) (db s)) (S (calls s)) (trace s ++ [Sent r])).
Proof. intros H. run_async. now rewrite H. Qed.

Lemma mutate_refused oracle r f s msg :
  fault (oracle (calls s)) = Some msg ->
  mutate oracle r f s
  = (mkResponse None (Some msg), mkSession (db s) (S (calls s)) (trace s ++ [Sent r])).
Proof. intros H. run_async. now rewrite H. Qed.

(** The outcome of a served vote on a pair without a row. *)
Lemma castVote_create oracle props u vt st s :
  served oracle (calls s) -> served oracle (S (calls s)) ->
  votes_of (User.id u) (PostCard.post_id props) (votes (db s)) = [] ->
  PostCard.castVote oracle props u vt st s
  = (PostCard.setVoting false (PostCard.setVoting true st),
     mkSession
       (insert_vote (oracle (S (calls s))) (User.id u) (PostCard.post_id props) vt (db s))
       (S (S (calls s)))
       (trace s ++ [Sent (VotesSelectMaybeSingle (User.id u) (PostCard.post_id props));
                    Sent (VotesInsert (User.id u) (PostCard.post_id props) vt)]
                ++ notify (PostCard.onVote props) OnVote)).
Proof.
  intros H0 H1 Hnone. rewrite castVote_read by assumption. rewrite Hnone. simpl.
  unfold votes_insert. rewrite mutate_served by assumption. simpl.
  now rewrite <- !app_assoc.
Qed.

(** The outcome of a served vote repeating the direction of the row [e]. *)
Lemma castVote_toggle_off oracle props u vt st s e :
  served oracle (calls s) -> served oracle (S (calls s)) ->
  votes_of (User.id u) (PostCard.post_id props) (votes (db s)) = [e] ->
  Vote.vote_type e = vt ->
  PostCard.castVote oracle props u vt st s
  = (PostCard.setVoting false (PostCard.setVoting true st),
     mkSession
       (delete_vote_by_id (Vote.id e) (db s))
       (S (S (calls s)))
       (trace s ++ [Sent (VotesSelectMaybeSingle (User.id u) (PostCard.post_id props));
                    Sent (VotesDeleteById (Vote.id e))]
                ++ notify (PostCard.onVote props) OnVote)).
Proof.
  intros H0 H1 Hone Hsame. rewrite castVote_read by assumption. rewrite Hone. simpl.
  rewrite Hsame, Z.eqb_refl.
  unfold votes_delete_by_id. rewrite mutate_served by assumption. simpl.
  now rewrite <- !app_assoc.
Qed.

(** The outcome of a served vote against the direction of the row [e]. *)
Lemma castVote_switch oracle props u vt st s e :
  served oracle (calls s) -> served oracle (S (calls s)) ->
  votes_of (User.id u) (PostCard.post_id props) (votes (db s)) = [e] ->
  Vote.vote_type e <> vt ->
  PostCard.castVote oracle props u vt st s
  = (PostCard.setVoting false (PostCard.setVoting true st),
     mkSession
       (update_vote_by_id vt (Vote.id e) (db s))
       (S (S (calls s)))
       (trace s ++ [Sent (VotesSelectMaybeSingle (User.id u) (PostCard.post_id props));
                    Sent (VotesUpdateById vt (Vote.id e))]
                ++ notify (PostCard.onVote props) OnVote)).
Proof.
  intros H0 H1 Hone Hdiff. rewrite castVote_read by assumption. rewrite Hone. simpl.
  apply Z.eqb_neq in Hdiff. rewrite Hdiff.
  unfold votes_update_by_id. rewrite mutate_served by assumption. simpl.
  now rewrite <- !app_assoc.
Qed.

Lemma handleVote_cast oracle auth props u vt st s :
  PostCard.user auth = Some u ->
  PostCard.voting st = false ->
  PostCard.handleVote oracle auth props vt st s = PostCard.castVote oracle props u vt st s.
Proof. intros Hu Hv. unfold PostCard.handleVote. now rewrite Hu, Hv. Qed.

Lemma issued_app s s' evs :
  trace s' = trace s ++ evs -> issued s s' = sent evs.
Proof.
  intros H. unfold issued. rewrite H, skipn_app, skipn_all, Nat.sub_diag. reflexivity.
Qed.

Lemma sent_notify b e :
  (forall r, e <> Sent r) -> sent (notify b e) = [].
Proof.
  intros H. destruct b; simpl; [|reflexivity].
  destruct e; try reflexivity. now destruct (H r).
Qed.

Lemma issued_two s s' r1 r2 b e :
  (forall r, e <> Sent r) ->
  trace s' = trace s ++ [Sent r1; Sent r2] ++ notify b e ->
  issued s s' = [r1; r2].
Proof.
  intros He H. rewrite (issued_app _ _ _ H), sent_app, sent_notify by assumption.
  reflexivity.
Qed.

Lemma retype_self vt e : retype vt (Vote.id e) e = Vote.set_vote_type vt e.
Proof. unfold retype. now rewrite String.eqb_refl. Qed.

Lemma single_row u p vs e :
  one_vote_per_pair vs ->
  In e vs -> Vote.user_id e = u -> Vote.post_id e = p ->
  votes_of u p vs = [e].
Proof.
  intros Hinv Hin Hu Hp.
  assert (He : In e (votes_of u p vs)) by (apply votes_of_In; auto).
  specialize (Hinv u p).
  destruct (votes_of u p vs) as [|x [|y l]]; simpl in *; try lia; try tauto.
  destruct He as [-> | []]. reflexivity.
Qed.

(** C10. A call of the vote handler made while nobody is signed in, or
    while the card still awaits an earlier vote, returns at once: it adds
    no event to the trace (no read, no mutation), and leaves the store
    and the card as they were. *)
Theorem C10_handleVote_guard oracle auth props voteType st s :
  PostCard.user auth = None \/ PostCard.voting st = true ->
  PostCard.handleVote oracle auth props voteType st s = (st, s).
Proof.
  intros [Hu | Hv]; unfold PostCard.handleVote.
  - now rewrite Hu.
  - destruct (PostCard.user auth); [rewrite Hv|]; reflexivity.
Qed.

Lemma C10_handleVote_guard_witness :
  PostCard.handleVote Sample.serving Sample.signed_in Sample.card 1
    (PostCard.setVoting true Sample.idle) (Sample.fresh Sample.some_votes)
  = (PostCard.setVoting true Sample.idle, Sample.fresh Sample.some_votes).
Proof.
  apply (C10_handleVote_guard Sample.serving Sample.signed_in Sample.card 1
           (PostCard.setVoting true Sample.idle) (Sample.fresh Sample.some_votes)).
  right. reflexivity.
Defined.

(** X23. When the store serves both the read and the mutation, a vote of
    a signed-in user sends one read and then exactly one mutation,
    chosen by the user's row for the post: none - a row with the
    requested direction is inserted; a row of the same direction - that
    row is deleted; a row of the opposite direction - that row is
    updated to the requested direction. *)
Theorem vote_reconciliation_served oracle auth props u d st s :
  PostCard.user auth = Some u ->
  PostCard.voting st = false ->
  served oracle (calls s) ->
  served oracle (S (calls s)) ->
  let uid := User.id u in
  let pid := PostCard.post_id props in
  let vt := PostCard.vote_value d in
  let o := oracle (S (calls s)) in
  let before := votes (db s) in
  let s' := snd (PostCard.clickArrow oracle auth props d st s) in
  (votes_of uid pid before = [] ->
     issued s s' = [VotesSelectMaybeSingle uid pid; VotesInsert uid pid vt] /\
     votes (db s') = before ++ [Vote.mk (gen_id o) uid pid vt (now o)]) /\
  (forall e, votes_of uid pid before = [e] -> Vote.vote_type e = vt ->
     issued s s' = [VotesSelectMaybeSingle uid pid; VotesDeleteById (Vote.id e)] /\
     votes (db s') = filter (fun v => negb (String.eqb (Vote.id v) (Vote.id e))) before) /\
  (forall e, votes_of uid pid before = [e] ->
     Vote.vote_type e = PostCard.vote_value (PostCard.opposite d) ->
     issued s s' = [VotesSelectMaybeSingle uid pid; VotesUpdateById vt (Vote.id e)] /\
     votes (db s') = map (retype vt (Vote.id e)) before).
Proof.
  intros Hu Hv H0 H1 uid pid vt o before s'.
  subst s'. unfold PostCard.clickArrow. rewrite (handleVote_cast _ _ _ u) by assumption.
  split; [|split].
  - intros Hnone. rewrite castVote_create by assumption. simpl.
    split; [|reflexivity]. eapply issued_two; [|reflexivity]. discriminate.
  - intros e Hone Hsame. rewrite (castVote_toggle_off _ _ _ _ _ _ e) by assumption.
    simpl. split; [|reflexivity]. eapply issued_two; [|reflexivity]. discriminate.
  - intros e Hone Hopp.
    assert (Hd : Vote.vote_type e <> PostCard.vote_value d)
      by (rewrite Hopp; apply opposite_differs).
    rewrite (castVote_switch _ _ _ _ _ _ e) by assumption.
    simpl. split; [|reflexivity]. eapply issued_two; [|reflexivity]. discriminate.
Qed.

Lemma vote_reconciliation_served_witness :
  votes (db (snd (PostCard.clickArrow Sample.serving Sample.signed_in Sample.card
                    PostCard.Up Sample.idle (Sample.fresh Sample.some_votes))))
  = [Vote.mk "v-7" "u-alice" "p-1" 1 1500; Sample.up_by_carol].
Proof.
  destruct (vote_reconciliation_served Sample.serving Sample.signed_in Sample.card
              Sample.alice PostCard.Up Sample.idle (Sample.fresh Sample.some_votes)
              eq_refl eq_refl eq_refl eq_refl) as [_ [_ Hswitch]].
  exact (proj2 (Hswitch Sample.down_by_alice eq_refl eq_refl)).
Defined.

(** C1. The run on which the vote handler departs from the three-way
    rule.  Alice has a down vote on the post of the card; the store
    refuses the read of her row and serves the request that follows.
    The handler takes the refused read for "no vote yet".  When she
    clicks the down arrow again it sends an insert instead of the delete
    of her row, and when she clicks the up arrow it sends an insert
    instead of the update of her row; either way the pair ends with two
    rows. *)
Lemma C1_refused_read_inserts :
  let s := Sample.fresh Sample.some_votes in
  let click d :=
    snd (PostCard.clickArrow Sample.first_refused Sample.signed_in Sample.card d
           Sample.idle s) in
  votes_of "u-alice" "p-1" (votes (db s)) = [Sample.down_by_alice] /\
  issued s (click PostCard.Down)
    = [VotesSelectMaybeSingle "u-alice" "p-1"; VotesInsert "u-alice" "p-1" (-1)] /\
  votes_of "u-alice" "p-1" (votes (db (click PostCard.Down)))
    = [Sample.down_by_alice; Vote.mk "row-1" "u-alice" "p-1" (-1) 2001] /\
  issued s (click PostCard.Up)
    = [VotesSelectMaybeSingle "u-alice" "p-1"; VotesInsert "u-alice" "p-1" 1] /\
  votes_of "u-alice" "p-1" (votes (db (click PostCard.Up)))
    = [Sample.down_by_alice; Vote.mk "row-1" "u-alice" "p-1" 1 2001].
Proof. repeat split. Qed.


Lemma delete_inserted i v vs :
  Vote.id v = i ->
  ~ In i (map Vote.id vs) ->
  filter (fun w => negb (String.eqb (Vote.id w) i)) (vs ++ [v]) = vs.
Proof.
  intros Hid Hfresh. rewrite filter_app. simpl. rewrite Hid, String.eqb_refl. simpl.
  rewrite app_nil_r. apply filter_all. intros x Hx.
  apply negb_true_iff, String.eqb_neq. intros E. apply Hfresh.
  rewrite <- E. now apply in_map.
Qed.

(** X24. From a store without a vote of the user on the post, two clicks
    on the same arrow with all four requests served leave no row for the
    pair: the first inserts the row, the second finds it and deletes it.
    When the store gave the row an unused id, the vote table is back to
    what it was. *)
Theorem same_direction_twice_served oracle auth props u d st s :
  PostCard.user auth = Some u ->
  PostCard.voting st = false ->
  (forall k, (k < 4)%nat -> served oracle (calls s + k)) ->
  votes_of (User.id u) (PostCard.post_id props) (votes (db s)) = [] ->
  let uid := User.id u in
  let pid := PostCard.post_id props in
  let vt := PostCard.vote_value d in
  let o := oracle (S (calls s)) in
  let r1 := PostCard.clickArrow oracle auth props d st s in
  let r2 := PostCard.clickArrow oracle auth props d (fst r1) (snd r1) in
  votes_of uid pid (votes (db (snd r1))) = [Vote.mk (gen_id o) uid pid vt (now o)] /\
  issued s (snd r1) = [VotesSelectMaybeSingle uid pid; VotesInsert uid pid vt] /\
  issued (snd r1) (snd r2)
    = [VotesSelectMaybeSingle uid pid; VotesDeleteById (gen_id o)] /\
  votes_of uid pid (votes (db (snd r2))) = [] /\
  (~ In (gen_id o) (map Vote.id (votes (db s))) -> votes (db (snd r2)) = votes (db s)).
Proof.
  intros Hu Hv Hserved Hnone uid pid vt o r1 r2.
  assert (H0 : served oracle (calls s))
    by (rewrite <- (Nat.add_0_r (calls s)); apply Hserved; lia).
  assert (H1 : served oracle (S (calls s)))
    by (replace (S (calls s)) with (calls s + 1)%nat by lia; apply Hserved; lia).
  assert (H2 : served oracle (S (S (calls s))))
    by (replace (S (S (calls s))) with (calls s + 2)%nat by lia; apply Hserved; lia).
  assert (H3 : served oracle (S (S (S (calls s)))))
    by (replace (S (S (S (calls s)))) with (calls s + 3)%nat by lia; apply Hserved; lia).
  subst uid pid vt o.
  set (row := Vote.mk (gen_id (oracle (S (calls s)))) (User.id u)
                (PostCard.post_id props) (PostCard.vote_value d)
                (now (oracle (S (calls s))))).
  assert (E1 : r1 = PostCard.castVote oracle props u (PostCard.vote_value d) st s)
    by (apply handleVote_cast; assumption).
  rewrite castVote_create in E1 by assumption.
  assert (Hrow : votes_of (User.id u) (PostCard.post_id props) (votes (db (snd r1)))
                 = [row]).
  { rewrite E1. simpl. rewrite votes_of_app, Hnone. simpl.
    unfold votes_of. simpl. now rewrite !String.eqb_refl. }
  assert (E2 : r2 = PostCard.castVote oracle props u (PostCard.vote_value d)
                      (fst r1) (snd r1)).
  { apply handleVote_cast; [assumption|]. rewrite E1. reflexivity. }
  rewrite (castVote_toggle_off _ _ _ _ _ _ row) in E2;
    [ | rewrite E1; exact H2 | rewrite E1; exact H3 | exact Hrow | reflexivity ].
  split; [exact Hrow|]. split; [|split; [|split]].
  - rewrite E1. simpl. eapply issued_two; [|reflexivity]. discriminate.
  - rewrite E2. simpl. eapply issued_two; [|reflexivity]. discriminate.
  - rewrite E2. simpl. rewrite votes_of_delete, Hrow. simpl.
    now rewrite String.eqb_refl.
  - intros Hfresh. rewrite E2. simpl. rewrite E1. simpl.
    now apply delete_inserted.
Qed.

Lemma same_direction_twice_served_witness :
  let r1 := PostCard.clickArrow Sample.serving Sample.signed_in Sample.card
              PostCard.Down Sample.idle (Sample.fresh Sample.no_votes) in
  let r2 := PostCard.clickArrow Sample.serving Sample.signed_in Sample.card
              PostCard.Down (fst r1) (snd r1) in
  votes_of "u-alice" "p-1" (votes (db (snd r2))) = [].
Proof.
  intros r1 r2.
  refine (proj1 (proj2 (proj2 (proj2
    (same_direction_twice_served Sample.serving Sample.signed_in Sample.card
       Sample.alice PostCard.Down Sample.idle (Sample.fresh Sample.no_votes)
       eq_refl eq_refl _ eq_refl))))).
  intros k _. reflexivity.
Defined.

(** C2. The run on which two clicks on the same arrow do not return to
    "no row".  Alice has no vote on the post and clicks the down arrow
    twice; the first click is served and inserts her row; the store
    refuses the read of the second click and serves its mutation.  The
    second click sends a second insert instead of the delete, and the
    pair ends with two rows. *)
Lemma C2_refused_second_read_duplicates :
  let s := Sample.fresh Sample.no_votes in
  let r1 := PostCard.clickArrow Scenario.third_refused Sample.signed_in Sample.card
              PostCard.Down Sample.idle s in
  let r2 := PostCard.clickArrow Scenario.third_refused Sample.signed_in Sample.card
              PostCard.Down (fst r1) (snd r1) in
  votes_of "u-alice" "p-1" (votes (db s)) = [] /\
  votes_of "u-alice" "p-1" (votes (db (snd r1)))
    = [Vote.mk "row-1" "u-alice" "p-1" (-1) 2001] /\
  issued (snd r1) (snd r2)
    = [VotesSelectMaybeSingle "u-alice" "p-1"; VotesInsert "u-alice" "p-1" (-1)] /\
  votes_of "u-alice" "p-1" (votes (db (snd r2)))
    = [Vote.mk "row-1" "u-alice" "p-1" (-1) 2001;
       Vote.mk "row-3" "u-alice" "p-1" (-1) 2003].
Proof. repeat split. Qed.


Lemma castVote_keeps_one_vote_per_pair oracle props u vt st s :
  served oracle (calls s) -> served oracle (S (calls s)) ->
  one_vote_per_pair (votes (db s)) ->
  one_vote_per_pair (votes (db (snd (PostCard.castVote oracle props u vt st s)))).
Proof.
  intros H0 H1 Hinv.
  pose proof (Hinv (User.id u) (PostCard.post_id props)) as Hle.
  destruct (votes_of (User.id u) (PostCard.post_id props) (votes (db s)))
    as [|e [|e' l]] eqn:Hmine; simpl in Hle; [| |lia].
  - rewrite castVote_create by assumption. simpl.
    now apply one_vote_per_pair_insert.
  - destruct (Z.eq_dec (Vote.vote_type e) vt) as [Hsame | Hdiff].
    + rewrite (castVote_toggle_off _ _ _ _ _ _ e) by assumption. simpl.
      now apply one_vote_per_pair_delete.
    + rewrite (castVote_switch _ _ _ _ _ _ e) by assumption. simpl.
      now apply one_vote_per_pair_update.
Qed.

(** X25. When the store serves both the read and the mutation, a vote
    keeps the invariant that a (user, post) pair has at most one vote
    row.  In particular, when the user's row has the opposite direction,
    the vote rewrites the direction of that row where it stands: the
    table keeps its length, the pair still has exactly one row, and no
    insert is sent. *)
Theorem one_vote_per_pair_preserved_served oracle auth props u d st s :
  PostCard.user auth = Some u ->
  PostCard.voting st = false ->
  served oracle (calls s) ->
  served oracle (S (calls s)) ->
  one_vote_per_pair (votes (db s)) ->
  let uid := User.id u in
  let pid := PostCard.post_id props in
  let vt := PostCard.vote_value d in
  let before := votes (db s) in
  let s' := snd (PostCard.clickArrow oracle auth props d st s) in
  one_vote_per_pair (votes (db s')) /\
  (forall e, In e before -> Vote.user_id e = uid -> Vote.post_id e = pid ->
     Vote.vote_type e = PostCard.vote_value (PostCard.opposite d) ->
     votes (db s') = map (retype vt (Vote.id e)) before /\
     List.length (votes (db s')) = List.length before /\
     votes_of uid pid (votes (db s')) = [Vote.set_vote_type vt e] /\
     forall u' p' vt', ~ In (VotesInsert u' p' vt') (issued s s')).
Proof.
  intros Hu Hv H0 H1 Hinv uid pid vt before s'.
  subst s' uid pid vt before. unfold PostCard.clickArrow. rewrite (handleVote_cast _ _ _ u) by assumption.
  split; [now apply castVote_keeps_one_vote_per_pair|].
  intros e Hin Heu Hep Hopp.
  assert (Hone : votes_of (User.id u) (PostCard.post_id props) (votes (db s)) = [e])
    by now apply single_row.
  assert (Hd : Vote.vote_type e <> PostCard.vote_value d)
    by (rewrite Hopp; apply opposite_differs).
  rewrite (castVote_switch _ _ _ _ _ _ e) by assumption. simpl.
  split; [reflexivity|]. split; [apply length_map|]. split.
  - rewrite votes_of_update, Hone. simpl.
    now rewrite retype_self.
  - intros u' p' vt'.
    erewrite issued_two; [| |reflexivity]; [|discriminate].
    simpl. intros [E | [E | []]]; discriminate.
Qed.

Lemma sample_votes_one_per_pair : one_vote_per_pair (votes Sample.some_votes).
Proof.
  intros u p. unfold votes_of. cbn -[String.eqb].
  destruct (String.eqb "u-alice" u) eqn:Ea, (String.eqb "u-carol" u) eqn:Ec;
    cbn -[String.eqb]; try (destruct (String.eqb "p-1" p); simpl; lia).
  apply String.eqb_eq in Ea, Ec. subst u. discriminate.
Qed.

Lemma one_vote_per_pair_preserved_served_witness :
  votes_of "u-alice" "p-1"
    (votes (db (snd (PostCard.clickArrow Sample.serving Sample.signed_in Sample.card
                       PostCard.Up Sample.idle (Sample.fresh Sample.some_votes)))))
  = [Vote.mk "v-7" "u-alice" "p-1" 1 1500].
Proof.
  destruct (one_vote_per_pair_preserved_served Sample.serving Sample.signed_in
              Sample.card Sample.alice PostCard.Up Sample.idle
              (Sample.fresh Sample.some_votes)
              eq_refl eq_refl eq_refl eq_refl sample_votes_one_per_pair)
    as [_ Hswitch].
  exact (proj1 (proj2 (proj2
           (Hswitch Sample.down_by_alice (or_introl eq_refl) eq_refl eq_refl eq_refl)))).
Defined.

(** C3. The run on which a vote breaks the invariant.  The store has at
    most one vote row per pair, Alice's row on the post of the card is a
    down vote, and she clicks the up arrow; the store refuses the read
    of her row and serves the request that follows.  The handler sends
    an insert instead of the update: the table grows by one row and the
    pair has two rows, so the invariant no longer holds. *)
Lemma C3_refused_read_second_row :
  let s := Sample.fresh Sample.some_votes in
  let s' := snd (PostCard.clickArrow Sample.first_refused Sample.signed_in Sample.card
                   PostCard.Up Sample.idle s) in
  one_vote_per_pair (votes (db s)) /\
  votes_of "u-alice" "p-1" (votes (db s)) = [Sample.down_by_alice] /\
  Vote.vote_type Sample.down_by_alice = PostCard.vote_value (PostCard.opposite PostCard.Up) /\
  In (VotesInsert "u-alice" "p-1" 1) (issued s s') /\
  List.length (votes (db s')) = S (List.length (votes (db s))) /\
  votes_of "u-alice" "p-1" (votes (db s'))
    = [Sample.down_by_alice; Vote.mk "row-1" "u-alice" "p-1" 1 2001] /\
  ~ one_vote_per_pair (votes (db s')).
Proof.
  split; [exact sample_votes_one_per_pair|].
  repeat split; try (right; left; reflexivity).
  intros H. specialize (H "u-alice" "p-1"). vm_compute in H. lia.
Qed.

(** ** Running [handleDelete] *)

Lemma votes_on_delete p vs :
  votes_on p (filter (fun v => negb (String.eqb (Vote.post_id v) p)) vs) = [].
Proof.
  unfold votes_on. apply filter_none. intros x Hx.
  apply filter_In in Hx. destruct Hx as [_ Hx].
  now apply negb_true_iff in Hx.
Qed.

Lemma handleDelete_run oracle auth props st s :
  PostCard.is_admin auth = true ->
  PostCard.deleting st = false ->
  let pid := PostCard.post_id props in
  let b1 := match fault (oracle (calls s)) with
            | Some _ => db s
            | None => delete_votes_by_post pid (db s)
            end in
  let b2 := match fault (oracle (S (calls s))) with
            | Some _ => b1
            | None => delete_post_by_id pid b1
            end in
  exists e1 e2,
    (forall r, ~ In (Sent r) e1) /\ (forall r, ~ In (Sent r) e2) /\
    PostCard.handleDelete oracle auth props true st s
    = (PostCard.setDeleting false (PostCard.setDeleting true st),
       mkSession b2 (S (S (calls s)))
         (trace s ++ [Sent (VotesDeleteByPost pid)] ++ e1
                  ++ [Sent (PostsDeleteById pid)] ++ e2)).
Proof.
  intros Hadmin Hdel pid b1 b2. subst b1 b2 pid.
  unfold PostCard.handleDelete, votes_delete_by_post, posts_delete_by_id.
  rewrite Hadmin, Hdel. run_async.
  destruct (fault (oracle (calls s))) as [m1|]; simpl;
    destruct (fault (oracle (S (calls s)))) as [m2|]; simpl.
  - exists [ConsoleError "Error deleting votes:"],
      [ConsoleError "Error deleting post:";
       Alert ("Failed to delete post: " ++ JS.or_string (Some m2) "Unknown error")%string].
    repeat split; try (intros r [E|[E|[]]] || intros r [E|[]]; discriminate).
    now rewrite <- !app_assoc.
  - exists [ConsoleError "Error deleting votes:"], (notify (PostCard.onDelete props) OnDelete).
    repeat split; try (intros r [E|[]]; discriminate).
    + intros r. destruct (PostCard.onDelete props); simpl; [intros [E|[]]; discriminate | tauto].
    + destruct (PostCard.onDelete props); simpl; now rewrite <- ?app_assoc, ?app_nil_r.
  - exists [],
      [ConsoleError "Error deleting post:";
       Alert ("Failed to delete post: " ++ JS.or_string (Some m2) "Unknown error")%string].
    repeat split; try (intros r [E|[E|[]]]; discriminate); try (intros r []).
    now rewrite <- !app_assoc.
  - exists [], (notify (PostCard.onDelete props) OnDelete).
    repeat split; try (intros r []).
    + intros r. destruct (PostCard.onDelete props); simpl; [intros [E|[]]; discriminate | tauto].
    + destruct (PostCard.onDelete props); simpl; now rewrite <- ?app_assoc, ?app_nil_r.
Qed.

Lemma sent_silent e : (forall r, ~ In (Sent r) e) -> sent e = [].
Proof.
  induction e as [|x e IH]; intros H; [reflexivity|].
  destruct x; simpl; try (apply IH; intros r Hr; apply (H r); now right).
  destruct (H r). now left.
Qed.

(** C4. A confirmed delete by an admin sends two requests, in this order:
    the deletion of every vote row that references the post, then the
    deletion of the post.  The second is sent, and takes effect when
    served, whether or not the first was refused.  When both are served
    the post is gone together with all [N] vote rows that referenced it,
    and no other vote row is lost. *)
Theorem C4_delete_votes_then_post oracle auth props st s :
  PostCard.is_admin auth = true ->
  PostCard.deleting st = false ->
  let pid := PostCard.post_id props in
  let s' := snd (PostCard.handleDelete oracle auth props true st s) in
  let N := List.length (votes_on pid (votes (db s))) in
  issued s s' = [VotesDeleteByPost pid; PostsDeleteById pid] /\
  (served oracle (S (calls s)) ->
     forall p, In p (posts (db s')) <-> In p (posts (db s)) /\ Post.id p <> pid) /\
  (~ served oracle (calls s) -> votes (db s') = votes (db s)) /\
  (served oracle (calls s) -> served oracle (S (calls s)) ->
     votes_on pid (votes (db s')) = [] /\
     (List.length (votes (db s')) + N = List.length (votes (db s)))%nat /\
     (forall v, Vote.post_id v <> pid -> In v (votes (db s)) -> In v (votes (db s')))).
Proof.
  intros Hadmin Hdel pid s' N.
  destruct (handleDelete_run oracle auth props st s Hadmin Hdel) as (e1 & e2 & H1 & H2 & E).
  subst s'. rewrite E. clear E. simpl. fold pid. unfold served.
  split; [|split; [|split]].
  - erewrite issued_app by reflexivity.
    simpl. rewrite sent_app, (sent_silent e1) by assumption.
    simpl. now rewrite (sent_silent e2).
  - intros Hp p. rewrite Hp.
    destruct (fault (oracle (calls s))); simpl;
      rewrite ?filter_rescore, filter_In, negb_true_iff, String.eqb_neq; tauto.
  - intros Hv. destruct (fault (oracle (calls s))) as [m|]; [|tauto].
    destruct (fault (oracle (S (calls s)))); reflexivity.
  - intros Hv Hp. rewrite Hv, Hp. simpl. split; [apply votes_on_delete|]. split.
    + subst N. unfold votes_on.
      rewrite <- (filter_split_length
                    (fun v => String.eqb (Vote.post_id v) pid) (votes (db s))).
      lia.
    + intros v Hne Hin. apply filter_In. split; [assumption|].
      now apply negb_true_iff, String.eqb_neq.
Qed.

Lemma C4_delete_votes_then_post_witness :
  let s' := snd (PostCard.handleDelete Sample.first_refused Sample.moderator Sample.card
                   true Sample.idle (Sample.fresh Sample.some_votes)) in
  issued (Sample.fresh Sample.some_votes) s'
  = [VotesDeleteByPost "p-1"; PostsDeleteById "p-1"].
Proof.
  exact (proj1 (C4_delete_votes_then_post Sample.first_refused Sample.moderator
                  Sample.card Sample.idle (Sample.fresh Sample.some_votes)
                  eq_refl eq_refl)).
Defined.

(** ** The stable sort *)

Section SortFacts.
Context {A : Type}.
Variable cmp : A -> A -> Z.

Lemma insert_perm x l : Permutation (JS.insert cmp x l) (x :: l).
Proof.
  induction l as [|y l IH]; simpl; [reflexivity|].
  destruct (cmp x y >? 0); [|reflexivity].
  rewrite IH. apply perm_swap.
Qed.

Lemma sort_perm l : Permutation (JS.sort cmp l) l.
Proof.
  induction l as [|x l IH]; simpl; [reflexivity|].
  rewrite insert_perm. now constructor.
Qed.

Hypothesis cmp_total : forall a b, cmp a b > 0 -> cmp b a <= 0.
Hypothesis cmp_trans : forall a b c, cmp a b <= 0 -> cmp b c <= 0 -> cmp a c <= 0.

Lemma insert_sorted x l :
  StronglySorted (goes_before cmp) l ->
  StronglySorted (goes_before cmp) (JS.insert cmp x l).
Proof.
  induction 1 as [|y l Hs IH Hy]; simpl.
  - repeat constructor.
  - destruct (cmp x y >? 0) eqn:E.
    + apply Z.gtb_lt in E. constructor; [assumption|].
      rewrite insert_perm. constructor; [|assumption].
      apply cmp_total. lia.
    + assert (Hxy : goes_before cmp x y).
      { unfold goes_before. destruct (Z.gtb_spec (cmp x y) 0); [discriminate | lia]. }
      constructor; [now constructor|].
      constructor; [assumption|].
      eapply Forall_impl; [|exact Hy]. intros z Hz. now apply (cmp_trans x y z).
Qed.

Lemma sort_sorted l : StronglySorted (goes_before cmp) (JS.sort cmp l).
Proof.
  induction l as [|x l IH]; simpl; [constructor | now apply insert_sorted].
Qed.
End SortFacts.

Lemma StronglySorted_nth_error {A} (R : A -> A -> Prop) l :
  StronglySorted R l ->
  forall i j a b, (i < j)%nat ->
    nth_error l i = Some a -> nth_error l j = Some b -> R a b.
Proof.
  induction 1 as [|x l Hs IH Hx]; intros i j a b Hij Hi Hj.
  - destruct i; discriminate.
  - destruct j as [|j]; [lia|]. simpl in Hj.
    destruct i as [|i]; simpl in Hi.
    + injection Hi as <-. rewrite Forall_forall in Hx. apply Hx.
      eapply nth_error_In; eassumption.
    + apply (IH i j); [lia | assumption | assumption].
Qed.

Lemma feed_order_before a b : feed_order a b <= 0 <-> feed_before a b.
Proof.
  unfold feed_order, feed_before.
  destruct (Z.eqb_spec (Post.score a) (Post.score b)); lia.
Qed.

Lemma feed_sorted ps :
  StronglySorted feed_before (JS.sort feed_order ps).
Proof.
  eapply StronglySorted_ind with (P := fun l => StronglySorted feed_before l);
    [constructor | | apply (sort_sorted feed_order)].
  - intros a l _ IH Ha. constructor; [assumption|].
    eapply Forall_impl; [|exact Ha]. intros b. apply feed_order_before.
  - intros a b. rewrite !Z.gt_lt_iff. intros H.
    apply feed_order_before.
    assert (~ feed_before a b) by (rewrite <- feed_order_before; lia).
    unfold feed_before in *. lia.
  - intros a b c. rewrite !feed_order_before. unfold feed_before. lia.
Qed.

(** ** Running [loadPosts] *)

Lemma loadPosts_feed oracle user st s :
  served oracle (calls s) ->
  let postsData := JS.sort feed_order (posts (db s)) in
  FeedPage.posts (fst (FeedPage.loadPosts oracle user st s))
  = FeedPage.combine (profiles_reply oracle s postsData) (votes_reply oracle user s)
      postsData.
Proof.
  intros H0 postsData. unfold FeedPage.loadPosts, posts_select_feed.
  run_async. rewrite H0. simpl. fold postsData.
  destruct postsData as [|p ps] eqn:Esort; [reflexivity|].
  unfold profiles_select_in, FeedPage.fetchUserVotes, votes_select_by_user,
    profiles_reply, votes_reply.
  run_async.
  destruct (fault (oracle (S (calls s)))); simpl;
    destruct user as [u|]; simpl; try reflexivity;
    destruct (fault (oracle (S (S (calls s))))); reflexivity.
Qed.

Lemma combine_posts pr uv ps :
  map PostWithAuthor.post (FeedPage.combine pr uv ps) = ps.
Proof.
  unfold FeedPage.combine. rewrite map_map. simpl. apply map_id.
Qed.

(** C5. When the feed query is served, the loaded feed holds the posts of
    the store, each once, in an order where a post of higher score
    stands before any post of lower score, and of two posts of equal
    score the one created later stands first. *)
Theorem C5_feed_ordering oracle user st s :
  served oracle (calls s) ->
  let feed := FeedPage.posts (fst (FeedPage.loadPosts oracle user st s)) in
  Permutation (map PostWithAuthor.post feed) (posts (db s)) /\
  forall i j a b,
    nth_error feed i = Some a -> nth_error feed j = Some b ->
    (ProfilePage.score b < ProfilePage.score a -> (i < j)%nat) /\
    (ProfilePage.score a = ProfilePage.score b ->
     ProfilePage.created_at b < ProfilePage.created_at a -> (i < j)%nat).
Proof.
  intros H0 feed. subst feed. rewrite loadPosts_feed by assumption.
  set (pr := profiles_reply _ _ _). set (uv := votes_reply _ _ _).
  split; [rewrite combine_posts; apply sort_perm|].
  intros i j a b Hi Hj.
  assert (Hord : forall i j a b, (i < j)%nat ->
            nth_error (FeedPage.combine pr uv (JS.sort feed_order (posts (db s)))) i
              = Some a ->
            nth_error (FeedPage.combine pr uv (JS.sort feed_order (posts (db s)))) j
              = Some b ->
            feed_before (PostWithAuthor.post a) (PostWithAuthor.post b)).
  { intros i' j' a' b' Hlt Ha Hb.
    apply (StronglySorted_nth_error feed_before _ (feed_sorted (posts (db s))) i' j');
      [assumption | |];
      rewrite <- (combine_posts pr uv (JS.sort feed_order (posts (db s))));
      rewrite nth_error_map; [rewrite Ha | rewrite Hb]; reflexivity. }
  unfold ProfilePage.score, ProfilePage.created_at.
  split; intros Hs; [|intros Hc];
    (destruct (Nat.lt_trichotomy i j) as [Hlt | [Heq | Hgt]]; [assumption | |]);
    [ subst j; rewrite Hi in Hj; injection Hj as <-; lia
    | specialize (Hord j i b a Hgt Hj Hi); unfold feed_before in Hord; lia
    | subst j; rewrite Hi in Hj; injection Hj as <-; lia
    | specialize (Hord j i b a Hgt Hj Hi); unfold feed_before in Hord; lia ].
Qed.

Lemma C5_feed_ordering_witness :
  Permutation
    (map PostWithAuthor.post
       (FeedPage.posts (fst (FeedPage.loadPosts Sample.serving (Some Sample.alice)
                               Sample.empty_feed (Sample.fresh Sample.board)))))
    [Sample.hello; Sample.ghost_post; Sample.link_post].
Proof.
  exact (proj1 (C5_feed_ordering Sample.serving (Some Sample.alice) Sample.empty_feed
                  (Sample.fresh Sample.board) eq_refl)).
Defined.

(** ** The annotations of the feed *)

Lemma find_filter {A} (f g : A -> bool) l :
  find f (filter g l) = find (fun x => g x && f x) l.
Proof.
  induction l as [|x l IH]; simpl; [reflexivity|].
  destruct (g x); simpl; [destruct (f x)|]; auto.
Qed.

Lemma find_map {A B} (f : B -> bool) (h : A -> B) l :
  find f (map h l) = option_map h (find (fun x => f (h x)) l).
Proof.
  induction l as [|x l IH]; simpl; [reflexivity|].
  destruct (f (h x)); auto.
Qed.

Lemma find_ext {A} (f g : A -> bool) l :
  (forall x, f x = g x) -> find f l = find g l.
Proof.
  intros H. induction l as [|x l IH]; simpl; [reflexivity|].
  rewrite H, IH. reflexivity.
Qed.

Lemma uniq_from_In x seen l :
  In x (JS.uniq_from seen l) <-> In x l /\ ~ In x seen.
Proof.
  revert seen. induction l as [|y l IH]; intros seen; simpl; [tauto|].
  destruct (existsb (String.eqb y) seen) eqn:E.
  - apply existsb_exists in E. destruct E as (z & Hz & Eyz).
    apply String.eqb_eq in Eyz. subst z. rewrite IH.
    split; [tauto|]. intros [[-> | H] Hn]; tauto.
  - assert (Hy : ~ In y seen).
    { intros Hy. assert (existsb (String.eqb y) seen = true); [|congruence].
      apply existsb_exists. exists y. split; [assumption | apply String.eqb_refl]. }
    simpl. rewrite IH. simpl.
    destruct (string_dec y x) as [-> | Hne]; [tauto|].
    split; [intros [H | H]; tauto|]. intros [[H | H] Hn]; [tauto|]. right. tauto.
Qed.

Lemma uniq_In x l : In x (JS.uniq l) <-> In x l.
Proof. unfold JS.uniq. rewrite uniq_from_In. simpl. tauto. Qed.

Lemma or_number_zero v : JS.or_number (Some v) 0 = v.
Proof. unfold JS.or_number. destruct (Z.eqb_spec v 0); congruence. Qed.

(** The name attached to a post of the served feed. *)
Lemma author_username_of oracle s postsData p :
  In p postsData ->
  FeedPage.author_username (profiles_reply oracle s postsData) p
  = match fault (oracle (S (calls s))), author_profile (db s) p with
    | None, Some pr => JS.or_string (Some (Profile.username pr)) "Unknown"
    | _, _ => "Unknown"
    end.
Proof.
  intros Hin. unfold FeedPage.author_username, profiles_reply, author_profile.
  destruct (fault (oracle (S (calls s)))); [reflexivity|].
  rewrite find_map, find_filter. simpl.
  rewrite (find_ext _ (fun pr => String.eqb (Profile.id pr) (Post.author_id p))).
  - destruct (find _ (profiles (db s))); reflexivity.
  - intros pr. destruct (String.eqb_spec (Profile.id pr) (Post.author_id p)) as [E|];
      [|apply andb_false_r].
    rewrite andb_true_r. apply existsb_exists. exists (Post.author_id p). split.
    + apply uniq_In. now apply in_map.
    + rewrite E. apply String.eqb_refl.
Qed.

(** The direction attached to a post of the served feed. *)
Lemma user_vote_of oracle user s p :
  FeedPage.user_vote (votes_reply oracle user s) p
  = match user with
    | None => 0
    | Some u =>
        match fault (oracle (S (S (calls s)))), current_vote (db s) u p with
        | None, Some v => Vote.vote_type v
        | _, _ => 0
        end
    end.
Proof.
  unfold FeedPage.user_vote, votes_reply, current_vote.
  destruct user as [u|]; [|reflexivity].
  destruct (fault (oracle (S (S (calls s))))); [reflexivity|].
  rewrite find_map, find_filter. simpl.
  destruct (find _ (votes (db s))); simpl; [apply or_number_zero | reflexivity].
Qed.

Lemma or_string_nonempty v d : v <> "" -> JS.or_string (Some v) d = v.
Proof.
  intros H. unfold JS.or_string. destruct (String.eqb_spec v ""); congruence.
Qed.

(** C6, as amended.  Every post of the feed loaded by a served feed
    query carries the username of its author - the [username] column of
    the author's profile, not the optional [display_name] - or "Unknown"
    when the profile lookup fails (the request is refused, or no profile
    has the author's id) or the username is empty; and it carries the
    direction of the signed-in user's vote on it when the read of that
    user's votes is served, and 0 when that user has no vote on it,
    nobody is signed in, or that read is refused. *)
Theorem C6_feed_annotation oracle user st s a :
  served oracle (calls s) ->
  In a (FeedPage.posts (fst (FeedPage.loadPosts oracle user st s))) ->
  let p := PostWithAuthor.post a in
  (forall pr, served oracle (S (calls s)) -> author_profile (db s) p = Some pr ->
     Profile.username pr <> "" ->
     PostWithAuthor.author_username a = Some (Profile.username pr)) /\
  (forall pr, served oracle (S (calls s)) -> author_profile (db s) p = Some pr ->
     Profile.username pr = "" ->
     PostWithAuthor.author_username a = Some "Unknown") /\
  (~ served oracle (S (calls s)) \/ author_profile (db s) p = None ->
     PostWithAuthor.author_username a = Some "Unknown") /\
  (forall u v, user = Some u -> served oracle (S (S (calls s))) ->
     current_vote (db s) u p = Some v ->
     PostWithAuthor.user_vote a = Some (Vote.vote_type v)) /\
  (user = None \/
   (exists u, user = Some u /\ current_vote (db s) u p = None) \/
   (exists u, user = Some u /\ ~ served oracle (S (S (calls s)))) ->
     PostWithAuthor.user_vote a = Some 0).
Proof.
  intros H0 Hin p. rewrite loadPosts_feed in Hin by assumption.
  unfold FeedPage.combine in Hin. apply in_map_iff in Hin.
  destruct Hin as (q & <- & Hq). simpl in p. subst p. simpl.
  rewrite author_username_of by assumption. rewrite user_vote_of.
  unfold served. repeat split.
  - intros pr -> -> Hne. now rewrite or_string_nonempty.
  - intros pr -> -> ->. reflexivity.
  - intros [Hf | ->].
    + destruct (fault (oracle (S (calls s)))); [reflexivity | tauto].
    + destruct (fault (oracle (S (calls s)))); reflexivity.
  - intros u v -> -> ->. reflexivity.
  - intros [-> | [(u & -> & ->) | (u & -> & Hf)]]; [reflexivity | |].
    + destruct (fault (oracle (S (S (calls s))))); reflexivity.
    + destruct (fault (oracle (S (S (calls s))))); [reflexivity | tauto].
Qed.

Lemma C6_feed_annotation_witness :
  PostWithAuthor.author_username
    (PostWithAuthor.mk Sample.hello (Some "bob") (Some (-1))) = Some "bob".
Proof.
  refine (proj1 (C6_feed_annotation Sample.serving (Some Sample.alice) Sample.empty_feed
                   (Sample.fresh Sample.board)
                   (PostWithAuthor.mk Sample.hello (Some "bob") (Some (-1)))
                   eq_refl _) Sample.bob eq_refl eq_refl _).
  - right. right. left. reflexivity.
  - discriminate.
Defined.

(** On the sample board Alice has a down vote on the first post; when
    the store refuses the read of her votes the feed attaches 0 to it. *)
Example feed_refused_votes_read :
  In (PostWithAuthor.mk Sample.hello (Some "bob") (Some 0))
     (FeedPage.posts (fst (FeedPage.loadPosts Scenario.third_refused (Some Sample.alice)
                             Sample.empty_feed (Sample.fresh Sample.board)))) /\
  option_map Vote.vote_type (current_vote Sample.board Sample.alice Sample.hello)
  = Some (-1).
Proof. split; [right; right; left|]; reflexivity. Qed.

(** C6 as first stated fails: the feed of the sample board labels the
    posts of "u-bob" with his username "bob", although his profile has
    the display name "Bobby". *)
Lemma C6_display_name_counterexample :
  ~ (forall a pr,
       In a (FeedPage.posts (fst (FeedPage.loadPosts Sample.serving (Some Sample.alice)
                                    Sample.empty_feed (Sample.fresh Sample.board)))) ->
       author_profile Sample.board (PostWithAuthor.post a) = Some pr ->
       PostWithAuthor.author_username a = Profile.display_name pr).
Proof.
  intros H.
  specialize (H (PostWithAuthor.mk Sample.hello (Some "bob") (Some (-1))) Sample.bob).
  assert (E : Some "bob" = Some "Bobby"); [|discriminate E].
  apply H; [|reflexivity].
  right. right. left. reflexivity.
Qed.

(** ** Profile statistics *)

Lemma totalKarma_from posts acc :
  fold_left (fun sum post => sum + ProfilePage.score post) posts acc
  = acc + sum_scores posts.
Proof.
  revert acc. induction posts as [|p posts IH]; intros acc; simpl; [lia|].
  rewrite IH. lia.
Qed.

Lemma totalKarma_sum posts : ProfilePage.totalKarma posts = sum_scores posts.
Proof. unfold ProfilePage.totalKarma. now rewrite totalKarma_from. Qed.

Lemma sum_scores_perm posts posts' :
  Permutation posts posts' -> sum_scores posts = sum_scores posts'.
Proof. induction 1; simpl; lia. Qed.

(** The reduction of [topPost] returns the first post of greatest score. *)
Lemma topPost_fold rest : forall first,
  exists before t after,
    first :: rest = before ++ t :: after /\
    fold_left (fun max post =>
                 if ProfilePage.score post >? ProfilePage.score max then post else max)
              rest first = t /\
    (forall q, In q before -> ProfilePage.score q < ProfilePage.score t) /\
    (forall q, In q after -> ProfilePage.score q <= ProfilePage.score t).
Proof.
  induction rest as [|x rest IH] using rev_ind; intros first.
  - exists [], first, []. simpl. repeat split; intros q [].
  - destruct (IH first) as (before & t & after & Hsplit & Hfold & Hb & Ha).
    rewrite fold_left_app. simpl. rewrite Hfold.
    destruct (Z.gtb_spec (ProfilePage.score x) (ProfilePage.score t)) as [Hgt | Hle].
    + exists (before ++ t :: after), x, []. repeat split.
      * rewrite app_comm_cons, Hsplit. reflexivity.
      * intros q Hq. apply in_app_or in Hq. destruct Hq as [Hq | [<- | Hq]].
        -- specialize (Hb q Hq). lia.
        -- lia.
        -- specialize (Ha q Hq). lia.
      * intros q [].
    + exists before, t, (after ++ [x]). repeat split.
      * rewrite app_comm_cons, Hsplit, <- app_assoc. reflexivity.
      * assumption.
      * intros q Hq. apply in_app_or in Hq. destruct Hq as [Hq | [<- | []]].
        -- now apply Ha.
        -- lia.
Qed.

(** [toFixed(1)] picks the nearest tenth of a fraction [m / 2^p], the
    larger one on a tie. *)
Lemma nearest_tenths_fraction m p :
  let n := JS.nearest_tenths m (Zneg p) in
  - 2 ^ Zpos p <= 20 * Zpos m - 2 * 2 ^ Zpos p * n < 2 ^ Zpos p.
Proof.
  intros n. subst n. unfold JS.nearest_tenths.
  set (d := 2 ^ Zpos p).
  assert (Hd : 0 < d) by (apply Z.pow_pos_nonneg; lia).
  pose proof (Z.div_mod (20 * Zpos m + d) (2 * d) ltac:(lia)) as E.
  pose proof (Z.mod_pos_bound (20 * Zpos m + d) (2 * d) ltac:(lia)) as B.
  set (q := (20 * Zpos m + d) / (2 * d)) in *.
  nia.
Qed.

Lemma nearest_tenths_nearest m e : nearest_tenth m e (JS.nearest_tenths m e).
Proof.
  destruct e as [|p|p]; simpl.
  - lia.
  - reflexivity.
  - apply nearest_tenths_fraction.
Qed.

Lemma nearest_tenths_nonneg m e : 0 <= JS.nearest_tenths m e.
Proof.
  destruct e as [|p|p]; unfold JS.nearest_tenths.
  - lia.
  - assert (0 < 2 ^ Zpos p) by (apply Z.pow_pos_nonneg; lia). nia.
  - assert (0 < 2 ^ Zpos p) by (apply Z.pow_pos_nonneg; lia).
    apply Z.div_pos; lia.
Qed.

Lemma toFixed1_written x : written_with_one_decimal x (JS.toFixed1 x).
Proof.
  destruct x as [s|s| |s m e]; simpl; try reflexivity.
  exists (JS.nearest_tenths m e).
  split; [apply nearest_tenths_nearest|]. split; [apply nearest_tenths_nonneg|].
  reflexivity.
Qed.

(** ** Binary64 division of integers *)

(** The number of binary digits of a positive integer. *)
Lemma digits2_pos_bounds p :
  2 ^ (Zpos (digits2_pos p) - 1) <= Zpos p < 2 ^ Zpos (digits2_pos p).
Proof.
  induction p as [p IH|p IH|]; cbn [digits2_pos].
  - rewrite Pos2Z.inj_succ. replace (Z.succ (Zpos (digits2_pos p)) - 1)
      with (Z.succ (Zpos (digits2_pos p) - 1)) by lia.
    rewrite !Z.pow_succ_r by lia. lia.
  - rewrite Pos2Z.inj_succ. replace (Z.succ (Zpos (digits2_pos p)) - 1)
      with (Z.succ (Zpos (digits2_pos p) - 1)) by lia.
    rewrite !Z.pow_succ_r by lia. lia.
  - simpl. lia.
Qed.

Lemma digits2_pos_unique p k :
  2 ^ (k - 1) <= Zpos p < 2 ^ k -> Zpos (digits2_pos p) = k.
Proof.
  intros [Hlo Hhi]. pose proof (digits2_pos_bounds p) as [Blo Bhi].
  assert (Hk : 0 < k).
  { destruct (Z_lt_le_dec 0 k) as [|Hle]; [assumption|].
    destruct (Z.eq_dec k 0) as [->|]; [simpl in Hhi; lia|].
    rewrite Z.pow_neg_r in Hhi by lia. lia. }
  destruct (Z_lt_le_dec (Zpos (digits2_pos p)) k) as [Hlt|Hge].
  - assert (2 ^ Zpos (digits2_pos p) <= 2 ^ (k - 1)) by (apply Z.pow_le_mono_r; lia).
    lia.
  - destruct (Z.eq_dec (Zpos (digits2_pos p)) k) as [|Hne]; [assumption|].
    assert (2 ^ k <= 2 ^ (Zpos (digits2_pos p) - 1)) by (apply Z.pow_le_mono_r; lia).
    lia.
Qed.

Lemma iter_xO p k : Zpos (Pos.iter xO p k) = Zpos p * 2 ^ Zpos k.
Proof.
  induction k as [|k IH] using Pos.peano_ind.
  - simpl. lia.
  - rewrite Pos.iter_succ, Pos2Z.inj_xO, IH, Pos2Z.inj_succ, Z.pow_succ_r by lia. lia.
Qed.

(** An integer of magnitude below [2^53] is a Number, held with a
    mantissa of exactly 53 bits. *)
Lemma Number_of_pos sx p :
  Zpos p < 2 ^ 53 ->
  exists m a,
    binary_round JS.prec JS.emax sx p 0 = S754_finite sx m (- a) /\
    0 <= a <= 52 /\ Zpos m = Zpos p * 2 ^ a /\ 2 ^ 52 <= Zpos m < 2 ^ 53.
Proof.
  intros Hp. pose proof (digits2_pos_bounds p) as [Blo Bhi].
  set (d := Zpos (digits2_pos p)) in *.
  assert (Hd : 1 <= d <= 53).
  { split; [subst d; lia|].
    destruct (Z_le_gt_dec d 53) as [|Hgt]; [assumption|].
    assert (2 ^ 53 <= 2 ^ (d - 1)) by (apply Z.pow_le_mono_r; lia). lia. }
  unfold binary_round, shl_align, JS.prec, JS.emax.
  fold d. replace (fexp 53 1024 (d + 0)) with (d - 53)
    by (unfold fexp, emin; lia).
  destruct (d - 53 - 0) as [|k|k] eqn:Ek; try lia.
  - assert (d = 53) by lia.
    exists p, 0. replace (d - 53) with 0 by lia.
    assert (Hdig : Zdigits2 (Zpos p) = 53) by (simpl; fold d; lia).
    unfold binary_round_aux, shr_fexp. rewrite Hdig.
    replace (fexp 53 1024 (53 + 0) - 0) with 0 by (unfold fexp, emin; lia).
    cbn [shr shr_record_of_loc loc_of_shr_record shr_m round_nearest_even].
    rewrite Hdig.
    replace (fexp 53 1024 (53 + 0) - 0) with 0 by (unfold fexp, emin; lia).
    cbn [shr shr_record_of_loc shr_m]. simpl Z.leb. cbv iota.
    split; [reflexivity|]. split; [lia|]. split; [lia|].
    replace (53 - 1) with 52 in Blo by lia. subst d. rewrite H in *. lia.
  - set (m := Pos.iter xO p k).
    assert (Hm : Zpos m = Zpos p * 2 ^ Zpos k) by apply iter_xO.
    assert (Hk : Zpos k = 53 - d) by lia.
    assert (Hmb : 2 ^ 52 <= Zpos m < 2 ^ 53).
    { rewrite Hm, Hk.
      replace (2 ^ 52) with (2 ^ (d - 1) * 2 ^ (53 - d))
        by (rewrite <- Z.pow_add_r by lia; f_equal; lia).
      replace (2 ^ 53) with (2 ^ d * 2 ^ (53 - d))
        by (rewrite <- Z.pow_add_r by lia; f_equal; lia).
      assert (0 < 2 ^ (53 - d)) by (apply Z.pow_pos_nonneg; lia). nia. }
    assert (Hdig : Zdigits2 (Zpos m) = 53)
      by (simpl; apply digits2_pos_unique; simpl; lia).
    exists m, (53 - d).
    unfold binary_round_aux, shr_fexp. rewrite Hdig.
    replace (fexp 53 1024 (53 + (d - 53)) - (d - 53)) with 0 by (unfold fexp, emin; lia).
    cbn [shr shr_record_of_loc loc_of_shr_record shr_m round_nearest_even].
    rewrite Hdig.
    replace (fexp 53 1024 (53 + (d - 53)) - (d - 53)) with 0 by (unfold fexp, emin; lia).
    cbn [shr shr_record_of_loc shr_m].
    replace (d - 53 <=? 1024 - 53) with true by (symmetry; apply Z.leb_le; lia).
    replace (- (53 - d)) with (d - 53) by lia.
    split; [reflexivity|]. split; [lia|]. split; [rewrite Hm, Hk; reflexivity | exact Hmb].
Qed.

Lemma Zdigits2_unique q k : 2 ^ (k - 1) <= q < 2 ^ k -> 0 < q -> Zdigits2 q = k.
Proof.
  intros Hq Hpos. destruct q as [|p|p]; try lia. simpl.
  now apply digits2_pos_unique.
Qed.

(** Where the remainder [r] of a division by [D] lies: nowhere when it
    is zero, else below, at or above the half of [D]. *)
Lemma new_location_spec D r :
  0 < D -> 0 <= r < D ->
  new_location D r = if r =? 0 then loc_Exact else loc_Inexact (2 * r ?= D).
Proof.
  intros HD Hr. unfold new_location.
  destruct (Z.even D) eqn:Ev; unfold new_location_even, new_location_odd;
    destruct (r =? 0); try reflexivity.
  assert (Hodd : Z.odd D = true) by (rewrite <- Z.negb_even, Ev; reflexivity).
  apply Z.odd_spec in Hodd. destruct Hodd as [h Hh].
  f_equal.
  destruct (Z.compare_spec (2 * r + 1) D), (Z.compare_spec (2 * r) D);
    try reflexivity; lia.
Qed.

(** A rounded mantissa that reached [2^53] is brought back to 53 bits. *)
Lemma renormalise sx M0 e :
  2 ^ 52 <= M0 <= 2 ^ 53 -> -1074 <= e <= 969 ->
  exists M c,
    (let '(mrs, e'') := shr_fexp JS.prec JS.emax M0 e loc_Exact in
     match shr_m mrs with
     | Z0 => S754_zero sx
     | Zpos m => if e'' <=? JS.emax - JS.prec then S754_finite sx m e''
                 else S754_infinity sx
     | Zneg _ => S754_nan
     end) = S754_finite sx M (e + c) /\
    0 <= c <= 1 /\ Zpos M * 2 ^ c = M0 /\ 2 ^ 52 <= Zpos M < 2 ^ 53.
Proof.
  intros HM He. unfold JS.prec, JS.emax, shr_fexp.
  destruct (Z.eq_dec M0 (2 ^ 53)) as [->|Hne].
  - exists (Z.to_pos (2 ^ 52)), 1.
    replace (Zdigits2 (2 ^ 53)) with 54 by reflexivity.
    replace (fexp 53 1024 (54 + e) - e) with 1 by (unfold fexp, emin; lia).
    cbn [shr shr_record_of_loc iter_pos]. 
    change (shr_1 {| shr_m := 2 ^ 53; shr_r := false; shr_s := false |})
      with {| shr_m := 2 ^ 52; shr_r := false; shr_s := false |}.
    cbn [shr_m]. change (2 ^ 52) with (Zpos (Z.to_pos (2 ^ 52))) at 1.
    cbv iota.
    replace (e + 1 <=? 1024 - 53) with true by (symmetry; apply Z.leb_le; lia).
    split; [reflexivity|]. split; [lia|]. split; [reflexivity|].
    change (Zpos (Z.to_pos (2 ^ 52))) with (2 ^ 52). lia.
  - assert (Hdig : Zdigits2 M0 = 53) by (apply Zdigits2_unique; simpl; lia).
    destruct M0 as [|M|M]; try lia.
    exists M, 0. rewrite Hdig.
    replace (fexp 53 1024 (53 + e) - e) with 0 by (unfold fexp, emin; lia).
    cbn [shr shr_record_of_loc shr_m].
    replace (e <=? 1024 - 53) with true by (symmetry; apply Z.leb_le; lia).
    rewrite Z.add_0_r. split; [reflexivity|]. split; [lia|]. split; lia.
Qed.

Lemma loc_of_shr_record_of_loc m l :
  loc_of_shr_record (shr_record_of_loc m l) = l /\
  shr_m (shr_record_of_loc m l) = m.
Proof. destruct l as [|[| |]]; split; reflexivity. Qed.

(** The first step of rounding a quotient of 53 or 54 bits: the
    mantissa is brought to 53 bits and rounded to nearest, ties to
    even; it is off the exact quotient [(q * D + r) / D] by at most half
    a unit of the last place. *)
Lemma round_quotient_first q e D r :
  2 ^ 52 <= q < 2 ^ 54 -> 0 < D -> 0 <= r < D -> -1074 <= e ->
  exists mrs j,
    shr_fexp JS.prec JS.emax q e (new_location D r) = (mrs, e + j) /\
    0 <= j <= 1 /\
    2 ^ 52 <= round_nearest_even (shr_m mrs) (loc_of_shr_record mrs) <= 2 ^ 53 /\
    2 * Z.abs (round_nearest_even (shr_m mrs) (loc_of_shr_record mrs) * 2 ^ j * D
               - (q * D + r)) <= 2 ^ j * D.
Proof.
  intros Hq HD Hr He. rewrite new_location_spec by assumption.
  unfold JS.prec, JS.emax, shr_fexp.
  destruct (Z_lt_le_dec q (2 ^ 53)) as [Hlt|Hge].
  - assert (Hdig : Zdigits2 q = 53) by (apply Zdigits2_unique; simpl; lia).
    rewrite Hdig.
    replace (fexp 53 1024 (53 + e) - e) with 0 by (unfold fexp, emin; lia).
    cbn [shr]. eexists; exists 0. split; [rewrite Z.add_0_r; reflexivity|].
    split; [lia|].
    destruct (loc_of_shr_record_of_loc q
                (if r =? 0 then loc_Exact else loc_Inexact (2 * r ?= D))) as [-> ->].
    change (2 ^ 0) with 1.
    destruct (Z.eqb_spec r 0) as [->|Hr0]; cbn [round_nearest_even]; [lia|].
    destruct (Z.compare_spec (2 * r) D); [destruct (Z.even q)| |]; lia.
  - assert (Hdig : Zdigits2 q = 54) by (apply Zdigits2_unique; simpl; lia).
    rewrite Hdig.
    replace (fexp 53 1024 (54 + e) - e) with 1 by (unfold fexp, emin; lia).
    cbn [shr iter_pos]. eexists; exists 1. split; [reflexivity|].
    split; [lia|]. change (2 ^ 1) with 2.
    destruct q as [|[h|h|]|]; try lia.
    + destruct (Z.eqb_spec r 0) as [->|Hr0];
        [|destruct (Z.compare_spec (2 * r) D)];
        cbn [shr_record_of_loc shr_1 orb loc_of_shr_record shr_m round_nearest_even];
        try destruct (Z.even (Zpos h)); lia.
    + destruct (Z.eqb_spec r 0) as [->|Hr0];
        [|destruct (Z.compare_spec (2 * r) D)];
        cbn [shr_record_of_loc shr_1 orb loc_of_shr_record shr_m round_nearest_even];
        lia.
Qed.

(** Rounding the quotient of a division whose integer part [q] has 53
    or 54 bits gives a finite Number, within half a unit of its last
    place of the exact quotient [(q * D + r) / D]. *)
Lemma round_quotient sx q e D r :
  2 ^ 52 <= q < 2 ^ 54 -> 0 < D -> 0 <= r < D -> -1074 <= e <= 968 ->
  exists M j,
    binary_round_aux JS.prec JS.emax sx q e (new_location D r)
    = S754_finite sx M (e + j) /\
    0 <= j <= 2 /\ 2 ^ 52 <= Zpos M < 2 ^ 53 /\
    2 * Z.abs (Zpos M * 2 ^ j * D - (q * D + r)) <= 2 ^ j * D.
Proof.
  intros Hq HD Hr He.
  destruct (round_quotient_first q e D r Hq HD Hr ltac:(lia))
    as (mrs & j & E & Hj & HM0 & Hnear).
  destruct (renormalise sx _ (e + j) HM0 ltac:(lia)) as (M & c & E2 & Hc & HM & HMb).
  exists M, (j + c). unfold binary_round_aux. rewrite E. cbv iota beta.
  rewrite Z.add_assoc. split; [exact E2|]. split; [lia|]. split; [exact HMb|].
  rewrite <- HM in Hnear. rewrite Z.pow_add_r by lia.
  assert (Hc' : c = 0 \/ c = 1) by lia.
  assert (Hj' : j = 0 \/ j = 1) by lia.
  destruct Hc' as [-> | ->], Hj' as [-> | ->];
    change (2 ^ 0) with 1 in *; change (2 ^ 1) with 2 in *; lia.
Qed.

(** The quotient of two Numbers with full mantissas. *)
Lemma Number_div_finite s1 m1 a s2 m2 b :
  2 ^ 52 <= Zpos m1 < 2 ^ 53 -> 2 ^ 52 <= Zpos m2 < 2 ^ 53 ->
  0 <= a <= 52 -> 0 <= b <= 52 ->
  exists M j,
    JS.Number_div (S754_finite s1 m1 (- a)) (S754_finite s2 m2 (- b))
    = S754_finite (xorb s1 s2) M (b - a - 53 + j) /\
    0 <= j <= 2 /\ 2 ^ 52 <= Zpos M < 2 ^ 53 /\
    2 * Z.abs (Zpos M * 2 ^ j * Zpos m2 - Zpos m1 * 2 ^ 53) <= 2 ^ j * Zpos m2.
Proof.
  intros H1 H2 Ha Hb.
  assert (D1 : Zdigits2 (Zpos m1) = 53) by (apply Zdigits2_unique; simpl; lia).
  assert (D2 : Zdigits2 (Zpos m2) = 53) by (apply Zdigits2_unique; simpl; lia).
  unfold JS.Number_div, SFdiv, SFdiv_core_binary, JS.prec, JS.emax. cbv zeta.
  rewrite D1, D2.
  replace (Z.min (fexp 53 1024 (53 + - a - (53 + - b))) (- a - - b))
    with (b - a - 53) by (unfold fexp, emin; lia).
  replace (- a - - b - (b - a - 53)) with 53 by lia.
  cbv iota. rewrite Z.shiftl_mul_pow2 by lia.
  pose proof (Z_div_mod (Zpos m1 * 2 ^ 53) (Zpos m2) ltac:(lia)) as Hdiv.
  destruct (Z.div_eucl (Zpos m1 * 2 ^ 53) (Zpos m2)) as [q r].
  destruct Hdiv as [Hqr Hr].
  assert (Hq : 2 ^ 52 <= q < 2 ^ 54).
  { change (2 ^ 54) with (2 * 2 ^ 53). change (2 ^ 53) with (2 * 2 ^ 52) in *.
    set (t := 2 ^ 52) in *. assert (0 < t) by (subst t; reflexivity). nia. }
  destruct (round_quotient (xorb s1 s2) q (b - a - 53) (Zpos m2) r Hq
              ltac:(lia) Hr ltac:(lia)) as (M & j & E & Hj & HM & Hnear).
  exists M, j. split; [exact E|]. split; [exact Hj|]. split; [exact HM|].
  rewrite Hqr. replace (Zpos m2 * q + r) with (q * Zpos m2 + r) by lia. exact Hnear.
Qed.

(** From the two roundings to the printed tenths: a mantissa [M] within
    half a unit of [K * P / L], and [n] nearest to [10 * M / P], give [n]
    tenths nearest to [K / L] - the first rounding is too small to move
    the quotient across a half tenth. *)
Lemma tenths_of_rounded K L M P n :
  0 < K < 2 ^ 47 -> 0 < L -> 0 < P -> 2 ^ 52 <= M ->
  2 * Z.abs (M * L - K * P) <= L ->
  - P <= 20 * M - 2 * P * n < P ->
  nearest_tenth_of_quotient K L n.
Proof.
  intros HK HL HP HM H1 H2. unfold nearest_tenth_of_quotient.
  change (2 ^ 47) with 140737488355328 in HK.
  change (2 ^ 52) with 4503599627370496 in HM.
  assert (HML : 4503599627370496 * L <= M * L) by nia.
  assert (HKP : 2 * (M * L) - L <= 2 * (K * P)) by lia.
  assert (Hbig : 10 * L < P).
  { destruct (Z_lt_le_dec (10 * L) P) as [|Hle]; [assumption|].
    assert (K * P <= K * (10 * L)) by nia.
    assert (K * L <= 140737488355327 * L) by nia.
    lia. }
  assert (Hn1 : 20 * (M * L) - P * L < 2 * (P * (n * L))) by nia.
  assert (Hn2 : 2 * (P * (n * L)) <= 20 * (M * L) + P * L) by nia.
  assert (Hx1 : P * (2 * (n * L) - 20 * K) < P * (L + 1)) by lia.
  assert (Hx2 : - (P * (L + 1)) < P * (2 * (n * L) - 20 * K)) by lia.
  assert (2 * (n * L) - 20 * K < L + 1) by nia.
  assert (- (L + 1) < 2 * (n * L) - 20 * K) by nia.
  lia.
Qed.

(** The printed quotient of a non-zero integer by a positive one. *)
Lemma mean_of_pos sx k l :
  Zpos k < 2 ^ 47 -> Zpos l < 2 ^ 53 ->
  exists n,
    0 <= n /\ nearest_tenth_of_quotient (Zpos k) (Zpos l) n /\
    JS.toFixed1 (JS.Number_div (binary_round JS.prec JS.emax sx k 0)
                               (binary_round JS.prec JS.emax false l 0))
    = ((if sx then "-" else "") ++ JS.with_one_decimal n)%string.
Proof.
  intros Hk Hl.
  destruct (Number_of_pos sx k ltac:(lia)) as (m1 & a & -> & Ha & Hm1 & Hb1).
  destruct (Number_of_pos false l Hl) as (m2 & b & -> & Hb & Hm2 & Hb2).
  destruct (Number_div_finite sx m1 a false m2 b Hb1 Hb2 Ha Hb)
    as (M & j & -> & Hj & HM & Hnear).
  rewrite xorb_false_r.
  assert (Ha6 : 6 <= a).
  { destruct (Z_le_gt_dec 6 a) as [|Hlt]; [assumption|].
    assert (2 ^ a <= 2 ^ 5) by (apply Z.pow_le_mono_r; lia).
    change (2 ^ 5) with 32 in *. change (2 ^ 52) with (2 ^ 47 * 32) in Hb1.
    assert (0 < 2 ^ a) by (apply Z.pow_pos_nonneg; lia). nia. }
  destruct (b - a - 53 + j) as [|p|p] eqn:Ee; try lia.
  exists (JS.nearest_tenths M (Zneg p)).
  split; [apply nearest_tenths_nonneg|]. split; [|reflexivity].
  pose proof (nearest_tenths_fraction M p) as Hn. cbv zeta in Hn.
  assert (Hp : Zpos p = a + 53 - b - j) by lia.
  assert (Hpow : 2 ^ Zpos p * (2 ^ j * 2 ^ b) = 2 ^ a * 2 ^ 53).
  { rewrite <- !Z.pow_add_r by lia. f_equal. lia. }
  assert (HT : 0 < 2 ^ j * 2 ^ b).
  { apply Z.mul_pos_pos; apply Z.pow_pos_nonneg; lia. }
  assert (HP : 0 < 2 ^ Zpos p) by (apply Z.pow_pos_nonneg; lia).
  apply (tenths_of_rounded (Zpos k) (Zpos l) (Zpos M) (2 ^ Zpos p));
    try lia.
  rewrite Hm1, Hm2 in Hnear.
  set (P := 2 ^ Zpos p) in *. set (T := 2 ^ j * 2 ^ b) in *.
  assert (E1 : Zpos M * 2 ^ j * (Zpos l * 2 ^ b) - Zpos k * 2 ^ a * 2 ^ 53
               = T * (Zpos M * Zpos l - Zpos k * P)).
  { replace (Zpos k * 2 ^ a * 2 ^ 53) with (Zpos k * (2 ^ a * 2 ^ 53)) by ring.
    rewrite <- Hpow. subst T. ring. }
  rewrite E1 in Hnear.
  replace (2 ^ j * (Zpos l * 2 ^ b)) with (T * Zpos l) in Hnear by (subst T; ring).
  rewrite Z.abs_mul, (Z.abs_eq T) in Hnear by lia.
  nia.
Qed.

(** The average as printed is the quotient to the nearest tenth: the
    sign of [K], then the digits of a number of tenths that is within
    one twentieth of [|K| / L]. *)
Lemma mean_to_one_decimal_nearest K L :
  0 < L < 2 ^ 53 -> Z.abs K < 2 ^ 47 ->
  exists n,
    0 <= n /\ nearest_tenth_of_quotient (Z.abs K) L n /\
    mean_to_one_decimal K L
    = ((if (K <? 0)%Z then "-" else "") ++ JS.with_one_decimal n)%string.
Proof.
  intros HL HK. unfold mean_to_one_decimal, JS.Number_of_Z.
  destruct L as [|l|l]; try lia. cbn [binary_normalize].
  destruct K as [|k|k]; cbn [binary_normalize Z.abs Z.ltb Z.compare].
  - exists 0. split; [lia|]. split; [unfold nearest_tenth_of_quotient; lia|].
    destruct (Number_of_pos false l ltac:(lia)) as (m2 & b & -> & _).
    reflexivity.
  - apply (mean_of_pos false k l); lia.
  - apply (mean_of_pos true k l); lia.
Qed.

(** C7. The statistics of a profile over its posts: the number of posts;
    as karma the sum of their scores, whatever their order; as average
    the quotient of karma by the number of posts printed with one
    decimal - the sign of karma and a number of tenths within one
    twentieth of the exact quotient, for a karma below [2^47] in
    magnitude and fewer than [2^53] posts - and the string "0" without
    posts; as top post the post of highest score, the first of them when
    several share it, and none without posts. *)
Theorem C7_profile_stats posts :
  let st := ProfilePage.stats posts in
  ProfilePage.postCount st = List.length posts /\
  ProfilePage.karma st = sum_scores posts /\
  (forall posts', Permutation posts posts' ->
     ProfilePage.karma (ProfilePage.stats posts') = ProfilePage.karma st) /\
  (posts = [] ->
     ProfilePage.karma st = 0 /\ ProfilePage.average st = "0"%string /\
     ProfilePage.top st = None) /\
  (posts <> [] ->
     ProfilePage.average st
     = mean_to_one_decimal (sum_scores posts) (Z.of_nat (List.length posts)) /\
     written_with_one_decimal
       (JS.Number_div (JS.Number_of_Z (sum_scores posts))
                      (JS.Number_of_Z (Z.of_nat (List.length posts))))
       (ProfilePage.average st)) /\
  (posts <> [] ->
   Z.abs (sum_scores posts) < 2 ^ 47 -> Z.of_nat (List.length posts) < 2 ^ 53 ->
     exists n,
       0 <= n /\
       nearest_tenth_of_quotient (Z.abs (ProfilePage.karma st))
         (Z.of_nat (ProfilePage.postCount st)) n /\
       ProfilePage.average st
       = ((if (ProfilePage.karma st <? 0)%Z then "-" else "")
          ++ JS.with_one_decimal n)%string) /\
  (posts <> [] ->
     exists before t after,
       posts = before ++ t :: after /\
       ProfilePage.top st = Some t /\
       (forall q, In q before -> ProfilePage.score q < ProfilePage.score t) /\
       (forall q, In q after -> ProfilePage.score q <= ProfilePage.score t)).
Proof.
  simpl. split; [reflexivity|]. split; [apply totalKarma_sum|].
  split; [|split; [|split; [|split]]].
  - intros posts' Hp. rewrite !totalKarma_sum. symmetry. now apply sum_scores_perm.
  - intros ->. repeat split.
  - intros Hne. unfold ProfilePage.avgScore, mean_to_one_decimal.
    rewrite totalKarma_sum. destruct posts as [|p posts]; [contradiction|].
    split; [reflexivity | apply toFixed1_written].
  - intros Hne Hk Hl. rewrite totalKarma_sum.
    destruct (mean_to_one_decimal_nearest (sum_scores posts)
                (Z.of_nat (List.length posts))) as (n & Hn & Hnear & E).
    { split; [destruct posts; [contradiction | simpl List.length; lia] | exact Hl]. }
    { exact Hk. }
    exists n. split; [exact Hn|]. split; [exact Hnear|].
    rewrite <- E. unfold ProfilePage.avgScore, mean_to_one_decimal.
    rewrite totalKarma_sum. destruct posts; [contradiction | reflexivity].
  - intros Hne. destruct posts as [|first rest]; [contradiction|].
    destruct (topPost_fold rest first) as (before & t & after & Hs & Hf & Hb & Ha).
    exists before, t, after. simpl. rewrite Hf. auto.
Qed.

Lemma C7_profile_stats_witness :
  exists n,
    nearest_tenth_of_quotient 3 2 n /\
    ProfilePage.average (ProfilePage.stats [Sample.scored 1; Sample.scored 2])
    = JS.with_one_decimal n.
Proof.
  destruct (proj1 (proj2 (proj2 (proj2 (proj2 (proj2
              (C7_profile_stats [Sample.scored 1; Sample.scored 2]))))))
              ltac:(discriminate) ltac:(simpl; lia) ltac:(simpl; lia))
    as (n & _ & Hnear & E).
  exists n. split; [exact Hnear | exact E].
Defined.

(** Averages as the page prints them. *)
Example avgScore_samples :
  ProfilePage.avgScore [Sample.scored 1; Sample.scored 2] = "1.5"%string /\
  ProfilePage.avgScore [Sample.scored 1; Sample.scored 0; Sample.scored 0] = "0.3"%string /\
  ProfilePage.avgScore [Sample.scored (-1); Sample.scored 0; Sample.scored 0;
                        Sample.scored 0] = "-0.3"%string /\
  ProfilePage.avgScore [Sample.scored 0] = "0.0"%string /\
  mean_to_one_decimal 3 20 = "0.1"%string /\
  mean_to_one_decimal 9 20 = "0.5"%string.
Proof. vm_compute. repeat split. Qed.

(** ** The profile filter *)

Lemma truthy_spec s : JS.truthy s = true <-> exists v, s = Some v /\ v <> "".
Proof.
  unfold JS.truthy. destruct s as [v|].
  - rewrite negb_true_iff, String.eqb_neq. split.
    + intros H. exists v. auto.
    + intros (w & [= <-] & H). assumption.
  - split; [discriminate | intros (w & E & _); discriminate].
Qed.

Lemma falsy_spec s : JS.truthy s = false <-> s = None \/ s = Some "".
Proof.
  unfold JS.truthy. destruct s as [v|].
  - rewrite negb_false_iff, String.eqb_eq. split.
    + intros ->. now right.
    + intros [E | [= ->]]; [discriminate | reflexivity].
  - split; [now left | reflexivity].
Qed.

(** C8, as amended.  With the selection "text" the profile page lists
    exactly the posts whose content is present and not empty and whose
    URL is absent or empty; with the selection "link", exactly the posts
    whose URL is present and not empty.  Each such post is listed as
    often as it occurs. *)
Theorem C8_profile_filter posts sortBy :
  (forall p, In p (ProfilePage.applyFiltersAndSort posts sortBy ProfilePage.text) <->
     In p posts /\
     (exists c, ProfilePage.content p = Some c /\ c <> "") /\
     (ProfilePage.url p = None \/ ProfilePage.url p = Some "")) /\
  (forall p, In p (ProfilePage.applyFiltersAndSort posts sortBy ProfilePage.link) <->
     In p posts /\ exists u, ProfilePage.url p = Some u /\ u <> "") /\
  Permutation (ProfilePage.applyFiltersAndSort posts sortBy ProfilePage.text)
              (filter ProfilePage.is_text posts) /\
  Permutation (ProfilePage.applyFiltersAndSort posts sortBy ProfilePage.link)
              (filter ProfilePage.is_link posts).
Proof.
  unfold ProfilePage.applyFiltersAndSort. simpl.
  split; [|split; [|split]]; try apply sort_perm.
  - intros p. split.
    + intros H. apply (Permutation_in _ (sort_perm _ _)) in H.
      apply filter_In in H. destruct H as [Hin H].
      unfold ProfilePage.is_text in H. apply andb_true_iff in H.
      rewrite negb_true_iff, truthy_spec, falsy_spec in H. tauto.
    + intros (Hin & Hc & Hu).
      apply (Permutation_in _ (Permutation_sym (sort_perm _ _))).
      apply filter_In. split; [assumption|].
      unfold ProfilePage.is_text. apply andb_true_iff.
      rewrite negb_true_iff, truthy_spec, falsy_spec. tauto.
  - intros p. split.
    + intros H. apply (Permutation_in _ (sort_perm _ _)) in H.
      apply filter_In in H. unfold ProfilePage.is_link in H.
      rewrite truthy_spec in H. exact H.
    + intros (Hin & Hu).
      apply (Permutation_in _ (Permutation_sym (sort_perm _ _))).
      apply filter_In. unfold ProfilePage.is_link. rewrite truthy_spec. tauto.
Qed.

(** C8 as first stated fails: a text post submitted with an empty body
    has content (the empty string) and no URL, and the selection "text"
    leaves it out. *)
Lemma C8_empty_content_counterexample :
  ~ (forall p,
       In p (ProfilePage.applyFiltersAndSort [Sample.title_only] ProfilePage.newest
               ProfilePage.text) <->
       In p [Sample.title_only] /\
       ProfilePage.content p <> None /\ ProfilePage.url p = None).
Proof.
  intros H. destruct (H Sample.title_only) as [_ Hback].
  apply Hback. split; [now left|]. split; [discriminate | reflexivity].
Qed.

(** ** Creating a post *)

Lemma postData_exclusive trim u st :
  exclusive_kind (CreatePostForm.postType st)
    (pd_content (CreatePostForm.postData trim u st))
    (pd_url (CreatePostForm.postData trim u st)).
Proof.
  unfold exclusive_kind, CreatePostForm.postData. simpl.
  destruct (CreatePostForm.postType st); repeat split;
    try discriminate; intros [Hc Hu]; congruence.
Qed.

Lemma handleSubmit_run oracle trim onPostCreated u st s :
  exists e st',
    (forall r, ~ In (Sent r) e) /\
    CreatePostForm.handleSubmit oracle trim onPostCreated (Some u) st s
    = (st',
       mkSession
         (match fault (oracle (calls s)) with
          | Some _ => db s
          | None => insert_post (oracle (calls s)) (CreatePostForm.postData trim u st) (db s)
          end)
         (S (calls s))
         (trace s ++ [Sent (PostsInsert (CreatePostForm.postData trim u st))] ++ e)).
Proof.
  unfold CreatePostForm.handleSubmit, posts_insert. run_async.
  destruct (fault (oracle (calls s))) as [m|]; simpl.
  - eexists [], _. split; [intros r []|]. reflexivity.
  - exists (notify onPostCreated OnPostCreated). eexists. split.
    + intros r. destruct onPostCreated; simpl; [intros [E|[]]; discriminate | tauto].
    + destruct onPostCreated; simpl; rewrite <- ?app_assoc, ?app_nil_r; reflexivity.
Qed.

(** C9. The record built by the create-post form never has both a
    content and a URL: a text post has URL [null], a link post has
    content [null].  This holds of the payload computed from the form,
    of every insert the submit handler sends, and of every row the store
    gains from it. *)
Theorem C9_post_kind_exclusive oracle trim onPostCreated user st s :
  let ty := CreatePostForm.postType st in
  let s' := snd (CreatePostForm.handleSubmit oracle trim onPostCreated user st s) in
  (forall u, exclusive_kind ty (pd_content (CreatePostForm.postData trim u st))
                               (pd_url (CreatePostForm.postData trim u st))) /\
  (forall d, In (PostsInsert d) (issued s s') ->
     exclusive_kind ty (pd_content d) (pd_url d)) /\
  (forall p, In p (posts (db s')) ->
     In p (posts (db s)) \/ exclusive_kind ty (Post.content p) (Post.url p)).
Proof.
  intros ty s'. split; [intros u; apply postData_exclusive|].
  destruct user as [u|].
  - destruct (handleSubmit_run oracle trim onPostCreated u st s) as (e & st' & He & E).
    subst s'. rewrite E. clear E. simpl. split.
    + intros d. erewrite issued_app by reflexivity. simpl.
      rewrite (sent_silent e He). intros [[= <-] | []].
      apply (postData_exclusive trim u st).
    + intros p. destruct (fault (oracle (calls s))); simpl; [now left|].
      intros Hp. apply in_app_or in Hp. destruct Hp as [Hp | [<- | []]]; [now left|].
      right. apply (postData_exclusive trim u st).
  - subst s'. simpl. split; [|now left].
    unfold issued. rewrite skipn_all. intros d [].
Qed.

(* ===================================================================== *)
(** * Further properties *)
(* ===================================================================== *)

(** ** [handleVote] whatever the store answers *)

Lemma added_app s s' evs : trace s' = trace s ++ evs -> added s s' = evs.
Proof.
  intros H. unfold added. rewrite H, skipn_app, skipn_all, Nat.sub_diag. simpl.
  reflexivity.
Qed.

Lemma castVote_any oracle props u vt st s :
  let uid := User.id u in
  let pid := PostCard.post_id props in
  let m := vote_mutation (existing_vote oracle s uid pid) uid pid vt in
  PostCard.castVote oracle props u vt st s
  = (PostCard.setVoting false (PostCard.setVoting true st),
     mkSession (after_request oracle (S (calls s)) m (db s)) (S (S (calls s)))
       (trace s ++ [Sent (VotesSelectMaybeSingle uid pid); Sent m]
                ++ notify (PostCard.onVote props) OnVote)).
Proof.
  intros uid pid m. subst uid pid m.
  unfold PostCard.castVote, votes_select_maybeSingle, existing_vote, after_request.
  run_async.
  destruct (fault (oracle (calls s))) as [msg|]; simpl.
  - unfold votes_insert. run_async.
    destruct (fault (oracle (S (calls s)))); simpl;
      destruct (PostCard.onVote props); simpl; rewrite <- ?app_assoc; reflexivity.
  - destruct (data (maybeSingle _)) as [e|]; simpl;
      [destruct (Vote.vote_type e =? vt)|];
      unfold votes_delete_by_id, votes_update_by_id, votes_insert; run_async;
      destruct (fault (oracle (S (calls s)))); simpl;
      destruct (PostCard.onVote props); simpl; rewrite <- ?app_assoc; reflexivity.
Qed.

Lemma enabled_cast oracle auth props vt st s :
  PostCardView.arrowsDisabled auth st = false ->
  exists u, PostCard.user auth = Some u /\
    PostCard.handleVote oracle auth props vt st s
    = PostCard.castVote oracle props u vt st s.
Proof.
  unfold PostCardView.arrowsDisabled, PostCard.handleVote.
  destruct (PostCard.user auth) as [u|]; [|discriminate].
  intros ->. exists u. split; reflexivity.
Qed.

(** X1. With the arrows enabled, a click sends exactly two requests
    whatever the store answers - the read of the user's row and one vote
    mutation (an insert for the pair, or a delete or update by row id) -
    then fires [onVote] when the card has one, and leaves the card with
    [voting] cleared. *)
Theorem handleVote_enabled_run oracle auth props d st s :
  PostCardView.arrowsDisabled auth st = false ->
  let pid := PostCard.post_id props in
  let vt := PostCard.vote_value d in
  let r := PostCard.clickArrow oracle auth props d st s in
  exists u m,
    PostCard.user auth = Some u /\
    added s (snd r)
      = [Sent (VotesSelectMaybeSingle (User.id u) pid); Sent m]
        ++ notify (PostCard.onVote props) OnVote /\
    (m = VotesInsert (User.id u) pid vt \/
     (exists i, m = VotesDeleteById i) \/ (exists i, m = VotesUpdateById vt i)) /\
    calls (snd r) = S (S (calls s)) /\
    PostCard.voting (fst r) = false /\
    PostCard.deleting (fst r) = PostCard.deleting st.
Proof.
  intros Hen pid vt r. subst r vt pid. unfold PostCard.clickArrow.
  destruct (enabled_cast oracle auth props (PostCard.vote_value d) st s Hen)
    as (u & Hu & ->).
  rewrite castVote_any. simpl.
  exists u. eexists. split; [exact Hu|]. split; [now apply added_app|].
  split; [|auto].
  unfold vote_mutation.
  destruct (existing_vote oracle s (User.id u) (PostCard.post_id props)) as [e|];
    [destruct (Vote.vote_type e =? PostCard.vote_value d)|]; eauto.
Qed.

Lemma handleVote_enabled_run_witness :
  exists u m,
    PostCard.user Sample.signed_in = Some u /\
    added (Sample.fresh Scenario.doubled)
      (snd (PostCard.clickArrow Scenario.refusing Sample.signed_in Sample.card
              PostCard.Up Sample.idle (Sample.fresh Scenario.doubled)))
    = [Sent (VotesSelectMaybeSingle (User.id u) "p-1"); Sent m] ++ [OnVote].
Proof.
  destruct (handleVote_enabled_run Scenario.refusing Sample.signed_in Sample.card
              PostCard.Up Sample.idle (Sample.fresh Scenario.doubled) eq_refl)
    as (u & m & Hu & Hadd & _).
  exists u, m. split; [exact Hu | exact Hadd].
Defined.

Lemma maybeSingle_none {A} (rows : list A) :
  rows = [] \/ (2 <= List.length rows)%nat -> data (maybeSingle rows) = None.
Proof.
  destruct rows as [|x [|y l]]; simpl; intros [H | H];
    try reflexivity; try discriminate; lia.
Qed.

(** X2. The mutation is an insert whenever the read does not yield
    exactly one row: it is refused, the pair has no row, or the pair has
    several.  A served insert then adds a row for the pair, on top of
    the rows the pair may already have. *)
Theorem handleVote_blind_insert oracle auth props u d st s :
  PostCard.user auth = Some u ->
  PostCard.voting st = false ->
  let uid := User.id u in
  let pid := PostCard.post_id props in
  let vt := PostCard.vote_value d in
  let o := oracle (S (calls s)) in
  let mine := votes_of uid pid (votes (db s)) in
  let s' := snd (PostCard.clickArrow oracle auth props d st s) in
  ~ served oracle (calls s) \/ mine = [] \/ (2 <= List.length mine)%nat ->
  issued s s' = [VotesSelectMaybeSingle uid pid; VotesInsert uid pid vt] /\
  (served oracle (S (calls s)) ->
     votes (db s') = votes (db s) ++ [Vote.mk (gen_id o) uid pid vt (now o)] /\
     votes_of uid pid (votes (db s')) = mine ++ [Vote.mk (gen_id o) uid pid vt (now o)]).
Proof.
  intros Hu Hv uid pid vt o mine s' Hcase.
  subst s' uid pid vt o mine.
  unfold PostCard.clickArrow. rewrite (handleVote_cast _ _ _ u) by assumption.
  rewrite castVote_any. simpl.
  assert (E : existing_vote oracle s (User.id u) (PostCard.post_id props) = None).
  { unfold existing_vote, served in *.
    destruct (fault (oracle (calls s))); [reflexivity|].
    apply maybeSingle_none. destruct Hcase as [H | H]; [tauto | exact H]. }
  rewrite E. simpl. split.
  - eapply issued_two; [|reflexivity]. discriminate.
  - intros Hs. unfold after_request. rewrite Hs. simpl. split; [reflexivity|].
    rewrite votes_of_app. unfold votes_of at 2. simpl.
    now rewrite !String.eqb_refl.
Qed.

Lemma handleVote_blind_insert_witness :
  votes_of "u-alice" "p-1"
    (votes (db (snd (PostCard.clickArrow Sample.serving Sample.signed_in Sample.card
                       PostCard.Up Sample.idle (Sample.fresh Scenario.doubled)))))
  = [Sample.down_by_alice; Scenario.up_by_alice;
     Vote.mk "row-1" "u-alice" "p-1" 1 2001].
Proof.
  refine (proj2 (proj2 (handleVote_blind_insert Sample.serving Sample.signed_in
                          Sample.card Sample.alice PostCard.Up Sample.idle
                          (Sample.fresh Scenario.doubled) eq_refl eq_refl _)
                   eq_refl)).
  right. right. simpl. lia.
Defined.

(** X3. When the store refuses the mutation of a vote the store is left
    as it was, and the card still fires [onVote]: the handler does not
    look at the error. *)
Theorem handleVote_refused_mutation oracle auth props d st s :
  PostCardView.arrowsDisabled auth st = false ->
  ~ served oracle (S (calls s)) ->
  let s' := snd (PostCard.clickArrow oracle auth props d st s) in
  db s' = db s /\
  (PostCard.onVote props = true -> In OnVote (added s s')).
Proof.
  intros Hen Hf s'. subst s'. unfold PostCard.clickArrow.
  destruct (enabled_cast oracle auth props (PostCard.vote_value d) st s Hen)
    as (u & Hu & ->).
  rewrite castVote_any. simpl. split.
  - unfold after_request, served in *.
    destruct (fault (oracle (S (calls s)))); [reflexivity | tauto].
  - intros Hon. erewrite added_app by reflexivity. rewrite Hon.
    simpl. auto.
Qed.

Lemma handleVote_refused_mutation_witness :
  db (snd (PostCard.clickArrow Scenario.second_refused Sample.signed_in Sample.card
             PostCard.Up Sample.idle (Sample.fresh Sample.some_votes)))
  = Sample.some_votes.
Proof.
  refine (proj1 (handleVote_refused_mutation Scenario.second_refused Sample.signed_in
                   Sample.card PostCard.Up Sample.idle
                   (Sample.fresh Sample.some_votes) eq_refl _)).
  discriminate.
Defined.

Lemma perform_vote_frame o m b :
  (match m with
   | VotesInsert _ _ _ | VotesDeleteById _ | VotesUpdateById _ _ => True
   | _ => False
   end) ->
  profiles (perform o m b) = profiles b /\
  map unscored (posts (perform o m b)) = map unscored (posts b).
Proof.
  destruct m; simpl; intros H; try contradiction; split;
    try reflexivity; apply rescore_unscored.
Qed.

Lemma vote_mutation_on_votes e u p vt : on_votes (vote_mutation e u p vt) = true.
Proof.
  unfold vote_mutation. destruct e as [e|]; [destruct (Vote.vote_type e =? vt)|];
    reflexivity.
Qed.

(** X4. A click on an arrow sends requests on the votes table only.
    Whoever clicks and whatever the store answers, the profiles are
    unchanged and so is every post row apart from its score: the client
    never writes a score, the store keeps it up. *)
Theorem handleVote_writes_votes_only oracle auth props d st s :
  let s' := snd (PostCard.clickArrow oracle auth props d st s) in
  (forall r, In r (issued s s') -> on_votes r = true) /\
  profiles (db s') = profiles (db s) /\
  map unscored (posts (db s')) = map unscored (posts (db s)).
Proof.
  intros s'. subst s'. unfold PostCard.clickArrow, PostCard.handleVote.
  assert (Hidle : forall r, In r (issued s s) -> on_votes r = true).
  { unfold issued. rewrite skipn_all. intros r []. }
  destruct (PostCard.user auth) as [u|]; [|repeat split; exact Hidle].
  destruct (PostCard.voting st); [repeat split; exact Hidle|].
  rewrite castVote_any. cbn [snd db]. split.
  - erewrite issued_two; [| |reflexivity]; [|discriminate].
    intros r [<- | [<- | []]]; [reflexivity | apply vote_mutation_on_votes].
  - unfold after_request.
    destruct (fault (oracle (S (calls s)))); [split; reflexivity|].
    apply perform_vote_frame. unfold vote_mutation.
    destruct (existing_vote _ _ _ _) as [e|];
      [destruct (Vote.vote_type e =? PostCard.vote_value d)|]; exact I.
Qed.

Lemma NoDup_map_eq {A B} (f : A -> B) l x y :
  NoDup (map f l) -> In x l -> In y l -> f x = f y -> x = y.
Proof.
  induction l as [|z l IH]; simpl; intros Hnd Hx Hy E; [contradiction|].
  inversion Hnd as [|? ? Hnotin Hnd']; subst.
  destruct Hx as [-> | Hx], Hy as [-> | Hy].
  - reflexivity.
  - destruct Hnotin. rewrite E. now apply in_map.
  - destruct Hnotin. rewrite <- E. now apply in_map.
  - now apply IH.
Qed.

Lemma map_fixed {A} (h : A -> A) l : (forall x, In x l -> h x = x) -> map h l = l.
Proof.
  induction l as [|x l IH]; simpl; intros H; [reflexivity|].
  rewrite (H x (or_introl eq_refl)), IH; [reflexivity|]. intros y Hy. apply H. now right.
Qed.

Lemma existing_vote_single oracle s u p e :
  existing_vote oracle s u p = Some e -> votes_of u p (votes (db s)) = [e].
Proof.
  unfold existing_vote. destruct (fault (oracle (calls s))); [discriminate|].
  destruct (votes_of u p (votes (db s))) as [|x [|y l]]; simpl; congruence.
Qed.

(** A row of another pair does not carry the id of the row [e]. *)
Lemma other_pair_other_id u p u' p' vs e x :
  NoDup (map Vote.id vs) ->
  votes_of u p vs = [e] ->
  u' <> u \/ p' <> p ->
  In x (votes_of u' p' vs) ->
  String.eqb (Vote.id x) (Vote.id e) = false.
Proof.
  intros Hnd He Hdiff Hx. apply String.eqb_neq. intros Eid.
  assert (Hin : In e (votes_of u p vs)) by (rewrite He; now left).
  apply votes_of_In in Hin. apply votes_of_In in Hx.
  destruct Hin as (Hein & Heu & Hep), Hx as (Hxin & Hxu & Hxp).
  assert (x = e) by (eapply NoDup_map_eq; eassumption).
  subst x. destruct Hdiff; congruence.
Qed.

(** X5. When row ids are unique, a click by a user on a post changes no
    vote row of any other (user, post) pair, whatever the store answers. *)
Theorem handleVote_other_pairs oracle auth props d st s u' p' :
  NoDup (map Vote.id (votes (db s))) ->
  (forall u, PostCard.user auth = Some u ->
     u' <> User.id u \/ p' <> PostCard.post_id props) ->
  let s' := snd (PostCard.clickArrow oracle auth props d st s) in
  votes_of u' p' (votes (db s')) = votes_of u' p' (votes (db s)).
Proof.
  intros Hnd Hdiff s'. subst s'. unfold PostCard.clickArrow, PostCard.handleVote.
  destruct (PostCard.user auth) as [u|]; [|reflexivity].
  destruct (PostCard.voting st); [reflexivity|].
  specialize (Hdiff u eq_refl).
  rewrite castVote_any. simpl. unfold after_request.
  destruct (fault (oracle (S (calls s)))); [reflexivity|].
  unfold vote_mutation.
  destruct (existing_vote oracle s (User.id u) (PostCard.post_id props)) as [e|] eqn:Ex.
  - apply existing_vote_single in Ex.
    destruct (Vote.vote_type e =? PostCard.vote_value d); simpl.
    + rewrite votes_of_delete. apply filter_all. intros x Hx.
      apply negb_true_iff. eapply other_pair_other_id; eassumption.
    + rewrite votes_of_update. apply map_fixed. intros x Hx. unfold retype.
      now rewrite (other_pair_other_id _ _ _ _ _ _ _ Hnd Ex Hdiff Hx).
  - simpl. rewrite votes_of_app. unfold votes_of at 2. simpl.
    assert (E : String.eqb (User.id u) u' && String.eqb (PostCard.post_id props) p'
                = false).
    { apply andb_false_iff.
      destruct Hdiff as [H | H]; [left | right]; apply String.eqb_neq; congruence. }
    rewrite E. apply app_nil_r.
Qed.

Lemma handleVote_other_pairs_witness :
  votes_of "u-carol" "p-1"
    (votes (db (snd (PostCard.clickArrow Sample.serving Sample.signed_in Sample.card
                       PostCard.Down Sample.idle (Sample.fresh Sample.some_votes)))))
  = [Sample.up_by_carol].
Proof.
  refine (handleVote_other_pairs Sample.serving Sample.signed_in Sample.card
            PostCard.Down Sample.idle (Sample.fresh Sample.some_votes)
            "u-carol" "p-1" _ _).
  - repeat constructor; simpl; intuition discriminate.
  - intros u [= <-]. left. discriminate.
Defined.

(** X6. When row ids are unique, switching a vote to the other direction
    and back restores the vote table: the row keeps its id, its place
    and its timestamp throughout. *)
Theorem handleVote_switch_and_back oracle auth props u d st s e :
  PostCard.user auth = Some u ->
  PostCard.voting st = false ->
  (forall k, (k < 4)%nat -> served oracle (calls s + k)) ->
  NoDup (map Vote.id (votes (db s))) ->
  votes_of (User.id u) (PostCard.post_id props) (votes (db s)) = [e] ->
  Vote.vote_type e = PostCard.vote_value d ->
  let r1 := PostCard.clickArrow oracle auth props (PostCard.opposite d) st s in
  let r2 := PostCard.clickArrow oracle auth props d (fst r1) (snd r1) in
  votes_of (User.id u) (PostCard.post_id props) (votes (db (snd r1)))
    = [Vote.set_vote_type (PostCard.vote_value (PostCard.opposite d)) e] /\
  votes (db (snd r2)) = votes (db s).
Proof.
  intros Hu Hv Hserved Hnd Hone Hdir r1 r2.
  assert (H0 : served oracle (calls s))
    by (rewrite <- (Nat.add_0_r (calls s)); apply Hserved; lia).
  assert (H1 : served oracle (S (calls s)))
    by (replace (S (calls s)) with (calls s + 1)%nat by lia; apply Hserved; lia).
  assert (H2 : served oracle (S (S (calls s))))
    by (replace (S (S (calls s))) with (calls s + 2)%nat by lia; apply Hserved; lia).
  assert (H3 : served oracle (S (S (S (calls s)))))
    by (replace (S (S (S (calls s)))) with (calls s + 3)%nat by lia; apply Hserved; lia).
  set (vt := PostCard.vote_value d) in *.
  set (vt' := PostCard.vote_value (PostCard.opposite d)).
  assert (Hne : vt' <> vt) by apply opposite_differs.
  assert (E1 : r1 = PostCard.castVote oracle props u vt' st s)
    by (apply handleVote_cast; assumption).
  rewrite (castVote_switch _ _ _ _ _ _ e) in E1 by (try assumption; congruence).
  assert (Hrow : votes_of (User.id u) (PostCard.post_id props) (votes (db (snd r1)))
                 = [Vote.set_vote_type vt' e]).
  { rewrite E1. simpl. rewrite votes_of_update, Hone. simpl. now rewrite retype_self. }
  assert (E2 : r2 = PostCard.castVote oracle props u vt (fst r1) (snd r1)).
  { apply handleVote_cast; [assumption|]. rewrite E1. reflexivity. }
  rewrite (castVote_switch _ _ _ _ _ _ (Vote.set_vote_type vt' e)) in E2;
    [ | rewrite E1; exact H2 | rewrite E1; exact H3 | exact Hrow | exact Hne ].
  split; [exact Hrow|].
  rewrite E2. simpl. rewrite E1. simpl. rewrite map_map.
  apply map_fixed. intros x Hx. unfold retype.
  destruct (String.eqb (Vote.id x) (Vote.id e)) eqn:Eid; simpl; rewrite Eid;
    [|reflexivity].
  apply String.eqb_eq in Eid.
  assert (x = e).
  { eapply NoDup_map_eq; [exact Hnd | exact Hx | | exact Eid].
    assert (Hin : In e (votes_of (User.id u) (PostCard.post_id props) (votes (db s))))
      by (rewrite Hone; now left).
    now apply votes_of_In in Hin. }
  subst x. destruct e; simpl in *. unfold Vote.set_vote_type. simpl. congruence.
Qed.

Lemma handleVote_switch_and_back_witness :
  let r1 := PostCard.clickArrow Sample.serving Sample.signed_in Sample.card
              PostCard.Up Sample.idle (Sample.fresh Sample.some_votes) in
  let r2 := PostCard.clickArrow Sample.serving Sample.signed_in Sample.card
              PostCard.Down (fst r1) (snd r1) in
  votes (db (snd r2)) = [Sample.down_by_alice; Sample.up_by_carol].
Proof.
  intros r1 r2.
  refine (proj2 (handleVote_switch_and_back Sample.serving Sample.signed_in Sample.card
                   Sample.alice PostCard.Down Sample.idle
                   (Sample.fresh Sample.some_votes) Sample.down_by_alice
                   eq_refl eq_refl _ _ eq_refl eq_refl)).
  - intros k _. reflexivity.
  - repeat constructor; simpl; intuition discriminate.
Defined.

(** ** A vote, then the reload it triggers *)

Lemma find_hd_filter {A} (f : A -> bool) l : find f l = hd_error (filter f l).
Proof.
  induction l as [|x l IH]; simpl; [reflexivity|]. destruct (f x); auto.
Qed.

Lemma current_vote_first b u p :
  current_vote b u p = hd_error (votes_of (User.id u) (Post.id p) (votes b)).
Proof. unfold current_vote, votes_of. apply find_hd_filter. Qed.

(** The direction a served reload attaches for the signed-in user. *)
Lemma reload_user_vote oracle u page s a :
  served oracle (calls s) ->
  served oracle (S (S (calls s))) ->
  In a (FeedPage.posts (fst (FeedPage.loadPosts oracle (Some u) page s))) ->
  PostWithAuthor.user_vote a
  = Some (match hd_error (votes_of (User.id u) (Post.id (PostWithAuthor.post a))
                            (votes (db s))) with
          | Some v => Vote.vote_type v
          | None => 0
          end).
Proof.
  intros H0 H2 Hin. rewrite loadPosts_feed in Hin by assumption.
  unfold FeedPage.combine in Hin. apply in_map_iff in Hin.
  destruct Hin as (q & <- & Hq). cbn [PostWithAuthor.user_vote PostWithAuthor.post].
  rewrite user_vote_of, current_vote_first. unfold served in H2. now rewrite H2.
Qed.

(** X7. After a served click the served reload of the feed shows the
    vote on the card's post: the clicked direction when the user had no
    vote or the opposite one, and 0 when the click took the vote back. *)
Theorem vote_then_reload oracle auth props u d st page s a :
  PostCard.user auth = Some u ->
  PostCard.voting st = false ->
  (forall k, (k < 5)%nat -> served oracle (calls s + k)) ->
  let uid := User.id u in
  let pid := PostCard.post_id props in
  let vt := PostCard.vote_value d in
  let r1 := PostCard.clickArrow oracle auth props d st s in
  let feed := FeedPage.posts (fst (FeedPage.loadPosts oracle (Some u) page (snd r1))) in
  In a feed ->
  Post.id (PostWithAuthor.post a) = pid ->
  (votes_of uid pid (votes (db s)) = [] -> PostWithAuthor.user_vote a = Some vt) /\
  (forall e, votes_of uid pid (votes (db s)) = [e] -> Vote.vote_type e = vt ->
     PostWithAuthor.user_vote a = Some 0) /\
  (forall e, votes_of uid pid (votes (db s)) = [e] -> Vote.vote_type e <> vt ->
     PostWithAuthor.user_vote a = Some vt).
Proof.
  intros Hu Hv Hserved uid pid vt r1 feed Hin Hid.
  assert (H0 : served oracle (calls s))
    by (rewrite <- (Nat.add_0_r (calls s)); apply Hserved; lia).
  assert (H1 : served oracle (S (calls s)))
    by (replace (S (calls s)) with (calls s + 1)%nat by lia; apply Hserved; lia).
  assert (H2 : served oracle (S (S (calls s))))
    by (replace (S (S (calls s))) with (calls s + 2)%nat by lia; apply Hserved; lia).
  assert (H4 : served oracle (S (S (S (S (calls s))))))
    by (replace (S (S (S (S (calls s))))) with (calls s + 4)%nat by lia;
        apply Hserved; lia).
  subst feed uid pid vt.
  assert (E1 : r1 = PostCard.castVote oracle props u (PostCard.vote_value d) st s)
    by (apply handleVote_cast; assumption).
  assert (Hcalls : calls (snd r1) = S (S (calls s)))
    by (rewrite E1, castVote_any; reflexivity).
  apply reload_user_vote in Hin; [ | rewrite Hcalls; exact H2 | rewrite Hcalls; exact H4 ].
  rewrite Hin, Hid. clear Hin.
  split; [|split].
  - intros Hnone. rewrite E1, castVote_create by assumption. simpl.
    rewrite votes_of_app, Hnone. unfold votes_of. simpl.
    now rewrite !String.eqb_refl.
  - intros e Hone Hsame. rewrite E1, (castVote_toggle_off _ _ _ _ _ _ e) by assumption.
    simpl. rewrite votes_of_delete, Hone. simpl. now rewrite String.eqb_refl.
  - intros e Hone Hdiff. rewrite E1, (castVote_switch _ _ _ _ _ _ e) by assumption.
    simpl. rewrite votes_of_update, Hone. simpl. now rewrite retype_self.
Qed.

Lemma vote_then_reload_witness :
  PostWithAuthor.user_vote (PostWithAuthor.mk (Post.set_score 2 Sample.hello) (Some "bob") (Some 1))
  = Some 1.
Proof.
  refine (proj2 (proj2 (vote_then_reload Sample.serving Sample.signed_in Sample.card
                          Sample.alice PostCard.Up Sample.idle Sample.empty_feed
                          (Sample.fresh Sample.board)
                          (PostWithAuthor.mk (Post.set_score 2 Sample.hello) (Some "bob") (Some 1))
                          eq_refl eq_refl _ _ eq_refl))
            Sample.down_by_alice eq_refl _).
  - intros k _. reflexivity.
  - right. left. reflexivity.
  - discriminate.
Defined.

(** X8. In a served feed an arrow of a card is drawn as chosen exactly
    when somebody is signed in, the read of their votes was served, and
    their (first) vote row on the post has the value of that arrow; for
    an anonymous visitor no arrow is ever drawn as chosen. *)
Theorem feed_arrow_highlight oracle user page s props d :
  served oracle (calls s) ->
  In (PostCard.post props)
     (FeedPage.posts (fst (FeedPage.loadPosts oracle user page s))) ->
  let p := PostWithAuthor.post (PostCard.post props) in
  PostCardView.arrowHighlighted d props = true <->
  exists u v, user = Some u /\ served oracle (S (S (calls s))) /\
              current_vote (db s) u p = Some v /\
              Vote.vote_type v = PostCard.vote_value d.
Proof.
  intros H0 Hin p. subst p. rewrite loadPosts_feed in Hin by assumption.
  unfold FeedPage.combine in Hin. apply in_map_iff in Hin.
  destruct Hin as (q & Eq & Hq).
  unfold PostCardView.arrowHighlighted, PostCardView.userVote. rewrite <- Eq.
  cbn [PostWithAuthor.user_vote PostWithAuthor.post].
  rewrite or_number_zero, user_vote_of, Z.eqb_eq. unfold served.
  destruct user as [u|].
  - destruct (fault (oracle (S (S (calls s))))) as [m|] eqn:Ef.
    + split; [destruct d; discriminate|]. intros (u0 & v & _ & Hf & _). discriminate.
    + destruct (current_vote (db s) u q) as [v|] eqn:Ev.
      * split; [intros H; exists u, v; auto|].
        intros (u0 & v0 & [= <-] & _ & Hc & Hv). congruence.
      * split; [destruct d; discriminate|].
        intros (u0 & v0 & [= <-] & _ & Hc & _). congruence.
  - split; [destruct d; discriminate|]. intros (u0 & v & Hu & _). discriminate.
Qed.

Lemma feed_arrow_highlight_witness :
  PostCardView.arrowHighlighted PostCard.Down
    (PostCard.mkProps (PostWithAuthor.mk Sample.hello (Some "bob") (Some (-1)))
       true false false) = true.
Proof.
  apply (feed_arrow_highlight Sample.serving (Some Sample.alice) Sample.empty_feed
           (Sample.fresh Sample.board)
           (PostCard.mkProps (PostWithAuthor.mk Sample.hello (Some "bob") (Some (-1)))
              true false false) PostCard.Down eq_refl).
  - right. right. left. reflexivity.
  - exists Sample.alice, Sample.down_by_alice. repeat split.
Defined.

(** ** [handleDelete] whatever the store answers *)

Lemma handleDelete_any oracle auth props st s :
  PostCard.is_admin auth = true ->
  PostCard.deleting st = false ->
  let pid := PostCard.post_id props in
  PostCard.handleDelete oracle auth props true st s
  = (PostCard.setDeleting false (PostCard.setDeleting true st),
     mkSession
       (after_request oracle (S (calls s)) (PostsDeleteById pid)
          (after_request oracle (calls s) (VotesDeleteByPost pid) (db s)))
       (S (S (calls s)))
       (trace s
        ++ [Sent (VotesDeleteByPost pid)]
        ++ match fault (oracle (calls s)) with
           | Some _ => [ConsoleError "Error deleting votes:"]
           | None => []
           end
        ++ [Sent (PostsDeleteById pid)]
        ++ match fault (oracle (S (calls s))) with
           | Some m =>
               [ConsoleError "Error deleting post:";
                Alert ("Failed to delete post: "
                       ++ JS.or_string (Some m) "Unknown error")%string]
           | None => notify (PostCard.onDelete props) OnDelete
           end)).
Proof.
  intros Hadmin Hdel pid. subst pid.
  unfold PostCard.handleDelete, votes_delete_by_post, posts_delete_by_id, after_request.
  rewrite Hadmin, Hdel. run_async.
  destruct (fault (oracle (calls s))) as [m1|]; simpl;
    destruct (fault (oracle (S (calls s)))) as [m2|]; simpl;
    try destruct (PostCard.onDelete props); simpl;
    rewrite <- ?app_assoc, ?app_nil_r; reflexivity.
Qed.

(** X9. The delete handler does nothing at all - no request, no event,
    no change of the card - for somebody who is not an admin, while an
    earlier delete of the card is in flight, or when the confirmation
    dialog is declined. *)
Theorem handleDelete_guard oracle auth props confirmed st s :
  PostCard.is_admin auth = false \/ PostCard.deleting st = true \/ confirmed = false ->
  PostCard.handleDelete oracle auth props confirmed st s = (st, s).
Proof.
  unfold PostCard.handleDelete. intros [H | [H | H]]; rewrite H.
  - reflexivity.
  - now rewrite orb_true_r.
  - destruct (negb (PostCard.is_admin auth) || PostCard.deleting st); reflexivity.
Qed.

Lemma handleDelete_guard_witness :
  PostCard.handleDelete Sample.serving Sample.signed_in Sample.card true Sample.idle
    (Sample.fresh Sample.some_votes)
  = (Sample.idle, Sample.fresh Sample.some_votes).
Proof.
  apply (handleDelete_guard Sample.serving Sample.signed_in Sample.card true
           Sample.idle (Sample.fresh Sample.some_votes)).
  left. reflexivity.
Defined.

(** X10. How a confirmed delete by an admin ends.  When the store
    refuses the deletion of the post, no post row is removed (the rows
    are the same apart from scores, and the same outright when the
    deletion of the votes was refused too), the admin is alerted with
    the store's message ("Unknown error" when it is empty) and
    [onDelete] is not fired - yet the votes of the post are gone if
    their deletion was served.  When the deletion of the post is served
    there is no alert and [onDelete] is fired when the card has one.
    Either way the card ends with [deleting] cleared. *)
Theorem handleDelete_report oracle auth props st s :
  PostCard.is_admin auth = true ->
  PostCard.deleting st = false ->
  let pid := PostCard.post_id props in
  let r := PostCard.handleDelete oracle auth props true st s in
  (forall m, fault (oracle (S (calls s))) = Some m ->
     map unscored (posts (db (snd r))) = map unscored (posts (db s)) /\
     (~ served oracle (calls s) -> db (snd r) = db s) /\
     In (Alert ("Failed to delete post: "
                ++ (if String.eqb m "" then "Unknown error" else m))%string)
        (added s (snd r)) /\
     ~ In OnDelete (added s (snd r)) /\
     (served oracle (calls s) -> votes_on pid (votes (db (snd r))) = [])) /\
  (served oracle (S (calls s)) ->
     (forall t, ~ In (Alert t) (added s (snd r))) /\
     (In OnDelete (added s (snd r)) <-> PostCard.onDelete props = true)) /\
  PostCard.deleting (fst r) = false /\
  PostCard.voting (fst r) = PostCard.voting st.
Proof.
  intros Hadmin Hdel pid r. subst r pid. rewrite handleDelete_any by assumption.
  cbn [fst snd db]. erewrite added_app by reflexivity. unfold after_request, served.
  split; [|split; [|split; reflexivity]].
  - intros m Hm. rewrite Hm. split; [|split; [|split; [|split]]].
    + destruct (fault (oracle (calls s))); [reflexivity | apply rescore_unscored].
    + destruct (fault (oracle (calls s))); [reflexivity | tauto].
    + unfold JS.or_string.
      destruct (fault (oracle (calls s))); cbn [app In]; auto 10.
    + destruct (fault (oracle (calls s))); cbn [app In]; intuition discriminate.
    + intros Hv. rewrite Hv. cbn [perform delete_post_by_id delete_votes_by_post votes].
      apply votes_on_delete.
  - intros Hp. rewrite Hp. split.
    + intros t.
      destruct (fault (oracle (calls s))), (PostCard.onDelete props);
        cbn [app In notify]; intuition discriminate.
    + destruct (fault (oracle (calls s))), (PostCard.onDelete props);
        cbn [app In notify]; intuition discriminate.
Qed.

Lemma handleDelete_report_witness :
  let r := PostCard.handleDelete Scenario.second_refused Sample.moderator Sample.card
             true Sample.idle (Sample.fresh Sample.some_votes) in
  map Post.id (posts (db (snd r))) = ["p-1"] /\
  In (Alert "Failed to delete post: Unknown error")
     (added (Sample.fresh Sample.some_votes) (snd r)) /\
  votes_on "p-1" (votes (db (snd r))) = [].
Proof.
  intros r.
  destruct (handleDelete_report Scenario.second_refused Sample.moderator Sample.card
              Sample.idle (Sample.fresh Sample.some_votes) eq_refl eq_refl)
    as [Hrefused _].
  destruct (Hrefused "" eq_refl) as (_ & _ & Halert & _ & Hvotes).
  split; [reflexivity|]. split; [exact Halert | exact (Hvotes eq_refl)].
Defined.

(** X11. Whoever triggers it and whatever the store answers, the delete
    handler adds no row (a post row that remains is a row from before,
    apart from its score), keeps the profiles, keeps every vote that
    references another post, and keeps every other post as it was. *)
Theorem handleDelete_frame oracle auth props confirmed st s :
  let pid := PostCard.post_id props in
  let s' := snd (PostCard.handleDelete oracle auth props confirmed st s) in
  profiles (db s') = profiles (db s) /\
  (forall v, In v (votes (db s')) -> In v (votes (db s))) /\
  (forall v, In v (votes (db s)) -> Vote.post_id v <> pid -> In v (votes (db s'))) /\
  (forall p, In p (posts (db s')) -> In (unscored p) (map unscored (posts (db s)))) /\
  (forall p, In p (posts (db s)) -> Post.id p <> pid -> In p (posts (db s'))).
Proof.
  intros pid s'. subst s' pid.
  assert (Hsame : forall b : Backend,
            profiles b = profiles b /\
            (forall v, In v (votes b) -> In v (votes b)) /\
            (forall v, In v (votes b) ->
               Vote.post_id v <> PostCard.post_id props -> In v (votes b)) /\
            (forall p, In p (posts b) -> In (unscored p) (map unscored (posts b))) /\
            (forall p, In p (posts b) ->
               Post.id p <> PostCard.post_id props -> In p (posts b))).
  { intros b. repeat split; auto. intros p Hp. now apply in_map. }
  destruct (PostCard.is_admin auth) eqn:Hadmin;
    [| rewrite handleDelete_guard by auto; apply Hsame].
  destruct (PostCard.deleting st) eqn:Hdel;
    [rewrite handleDelete_guard by auto; apply Hsame|].
  destruct confirmed; [| rewrite handleDelete_guard by auto; apply Hsame].
  rewrite handleDelete_any by assumption. cbn [snd db]. unfold after_request.
  assert (Hre : forall vs p, In p (rescore [PostCard.post_id props] vs (posts (db s))) ->
            In (unscored p) (map unscored (posts (db s)))).
  { intros vs p Hp. rewrite <- (rescore_unscored [PostCard.post_id props] vs).
    now apply in_map. }
  assert (Hkeep : forall vs p, In p (posts (db s)) ->
            Post.id p <> PostCard.post_id props ->
            In p (rescore [PostCard.post_id props] vs (posts (db s)))).
  { intros vs p Hp Hne. apply rescore_keeps; [assumption|].
    cbn [existsb]. rewrite orb_false_r. now apply String.eqb_neq. }
  destruct (fault (oracle (calls s))), (fault (oracle (S (calls s))));
    cbn [perform delete_votes_by_post delete_post_by_id profiles votes posts];
    rewrite ?filter_rescore;
    (split; [reflexivity|]); (split; [|split; [|split]]).
  all: intros x; rewrite ?filter_In, ?negb_true_iff, ?String.eqb_neq;
    try tauto; try (intros; now apply in_map); try (apply Hre); try (apply Hkeep).
  all: intros [Hx _]; now apply in_map.
Qed.

(** ** [getTimeAgo] *)

(** X12. The age label of a card.  With [seconds] the whole seconds
    between the post and now: below a minute - also for a date in the
    future - the label is "just now"; below an hour it counts the whole
    minutes, 1 to 59; below a day the whole hours, 1 to 23; below a week
    the whole days, 1 to 6; from a week on it is the locale date. *)
Theorem getTimeAgo_brackets toLocaleDateString now date :
  let seconds := (now - date) / 1000 in
  let label := PostCardView.getTimeAgo toLocaleDateString now date in
  (now - date < 60000 -> label = "just now"%string) /\
  (60 <= seconds < 3600 ->
     exists n, 1 <= n <= 59 /\ 60 * n <= seconds < 60 * (n + 1) /\
               label = (JS.digits n ++ "m ago")%string) /\
  (3600 <= seconds < 86400 ->
     exists n, 1 <= n <= 23 /\ 3600 * n <= seconds < 3600 * (n + 1) /\
               label = (JS.digits n ++ "h ago")%string) /\
  (86400 <= seconds < 604800 ->
     exists n, 1 <= n <= 6 /\ 86400 * n <= seconds < 86400 * (n + 1) /\
               label = (JS.digits n ++ "d ago")%string) /\
  (604800000 <= now - date -> label = toLocaleDateString date).
Proof.
  intros seconds label. subst label. unfold PostCardView.getTimeAgo. fold seconds.
  assert (Hs : 1000 * seconds <= now - date < 1000 * seconds + 1000).
  { subst seconds. pose proof (Z.div_mod (now - date) 1000 ltac:(lia)).
    pose proof (Z.mod_pos_bound (now - date) 1000 ltac:(lia)). lia. }
  assert (Hdiv : forall k, 0 < k ->
            k * (seconds / k) <= seconds < k * (seconds / k + 1)).
  { intros k Hk. pose proof (Z.div_mod seconds k ltac:(lia)).
    pose proof (Z.mod_pos_bound seconds k Hk). lia. }
  destruct (Z.ltb_spec seconds 60); [repeat split; intros; try reflexivity; lia|].
  destruct (Z.ltb_spec seconds 3600).
  { repeat split; intros; try lia. exists (seconds / 60).
    pose proof (Hdiv 60 ltac:(lia)). repeat split; try lia. }
  destruct (Z.ltb_spec seconds 86400).
  { repeat split; intros; try lia. exists (seconds / 3600).
    pose proof (Hdiv 3600 ltac:(lia)). repeat split; try lia. }
  destruct (Z.ltb_spec seconds 604800).
  { repeat split; intros; try lia. exists (seconds / 86400).
    pose proof (Hdiv 86400 ltac:(lia)). repeat split; try lia. }
  repeat split; intros; try reflexivity; lia.
Qed.

(** ** Submitting the create-post form *)

Lemma handleSubmit_any oracle trim onPostCreated u st s :
  let d := CreatePostForm.postData trim u st in
  CreatePostForm.handleSubmit oracle trim onPostCreated (Some u) st s
  = match fault (oracle (calls s)) with
    | Some m =>
        (CreatePostForm.mkState (CreatePostForm.postType st) (CreatePostForm.title st)
           (CreatePostForm.content st) (CreatePostForm.url st) false
           (JS.or_string (Some m) "Failed to create post"),
         mkSession (db s) (S (calls s)) (trace s ++ [Sent (PostsInsert d)]))
    | None =>
        (CreatePostForm.mkState (CreatePostForm.postType st) "" "" "" false "",
         mkSession (insert_post (oracle (calls s)) d (db s)) (S (calls s))
           (trace s ++ [Sent (PostsInsert d)] ++ notify onPostCreated OnPostCreated))
    end.
Proof.
  intros d. subst d. unfold CreatePostForm.handleSubmit, posts_insert. run_async.
  destruct (fault (oracle (calls s))); simpl; [reflexivity|].
  destruct onPostCreated; simpl; rewrite <- ?app_assoc, ?app_nil_r; reflexivity.
Qed.

(** X13. What a submit of the form does.  Without a signed-in user:
    nothing.  Refused by the store: nothing is created, the typed title,
    body and URL stay in the form, and the form shows the store's
    message ("Failed to create post" when it is empty).  Served: exactly
    one post is appended, authored by the user, with the trimmed title
    and score 0; the title, body and URL fields are cleared and the
    selected post type is kept. *)
Theorem handleSubmit_outcome oracle trim onPostCreated user st s :
  let r := CreatePostForm.handleSubmit oracle trim onPostCreated user st s in
  let o := oracle (calls s) in
  (user = None -> r = (st, s)) /\
  (forall u m, user = Some u -> fault o = Some m ->
     db (snd r) = db s /\
     CreatePostForm.title (fst r) = CreatePostForm.title st /\
     CreatePostForm.content (fst r) = CreatePostForm.content st /\
     CreatePostForm.url (fst r) = CreatePostForm.url st /\
     CreatePostForm.error (fst r)
       = (if String.eqb m "" then "Failed to create post" else m)%string /\
     ~ In OnPostCreated (added s (snd r))) /\
  (forall u, user = Some u -> served oracle (calls s) ->
     posts (db (snd r))
       = posts (db s)
         ++ [Post.mk (gen_id o) (trim (CreatePostForm.title st))
               (pd_content (CreatePostForm.postData trim u st))
               (pd_url (CreatePostForm.postData trim u st))
               (User.id u) 0 (now o) (now o)] /\
     votes (db (snd r)) = votes (db s) /\
     profiles (db (snd r)) = profiles (db s) /\
     fst r = CreatePostForm.mkState (CreatePostForm.postType st) "" "" "" false "" /\
     (In OnPostCreated (added s (snd r)) <-> onPostCreated = true)) /\
  CreatePostForm.postType (fst r) = CreatePostForm.postType st.
Proof.
  intros r o. subst r o. split; [intros ->; reflexivity|].
  split; [|split].
  - intros u m -> Hm. rewrite handleSubmit_any, Hm. cbn [fst snd db].
    erewrite added_app by reflexivity.
    repeat split; try reflexivity. cbn [In]. intuition discriminate.
  - intros u -> Hs. unfold served in Hs. rewrite handleSubmit_any, Hs. cbn [fst snd db].
    erewrite added_app by reflexivity.
    repeat split; try reflexivity;
      destruct onPostCreated; cbn [app In notify]; intuition discriminate.
  - destruct user as [u|]; [|reflexivity].
    rewrite handleSubmit_any. destruct (fault (oracle (calls s))); reflexivity.
Qed.

(** X14. What the profile filter makes of a post created through the
    form while its submit button is enabled.  The post has a non-empty
    title.  A link post is listed under "link" and not under "text".  A
    text post is never listed under "link"; it is listed under "text"
    exactly when its trimmed body is not empty - a post with an empty
    body is listed under neither. *)
Theorem created_post_listing oracle trim onPostCreated u st s author vote :
  CreatePostFormView.submitDisabled trim st = false ->
  served oracle (calls s) ->
  let s' := snd (CreatePostForm.handleSubmit oracle trim onPostCreated (Some u) st s) in
  exists p,
    posts (db s') = posts (db s) ++ [p] /\
    Post.title p <> ""%string /\
    let row := PostWithAuthor.mk p author vote in
    (CreatePostForm.postType st = CreatePostForm.link ->
       ProfilePage.is_link row = true /\ ProfilePage.is_text row = false) /\
    (CreatePostForm.postType st = CreatePostForm.text ->
       ProfilePage.is_link row = false /\
       (ProfilePage.is_text row = true <-> trim (CreatePostForm.content st) <> ""%string)).
Proof.
  intros Hen Hs s'. subst s'. unfold served in Hs. rewrite handleSubmit_any, Hs.
  cbn [snd db insert_post posts]. eexists. split; [reflexivity|].
  unfold CreatePostFormView.submitDisabled in Hen.
  apply orb_false_iff in Hen. destruct Hen as [Hen Hurl].
  apply orb_false_iff in Hen. destruct Hen as [_ Htitle].
  apply String.eqb_neq in Htitle.
  split; [exact Htitle|].
  unfold ProfilePage.is_link, ProfilePage.is_text, ProfilePage.url, ProfilePage.content,
    CreatePostForm.postData, JS.truthy.
  cbn [PostWithAuthor.post Post.url Post.content pd_url pd_content].
  destruct (CreatePostForm.postType st); split; intros Hty; try discriminate.
  - split; [reflexivity|].
    rewrite andb_true_r, negb_true_iff. apply String.eqb_neq.
  - rewrite Hurl. cbn [negb]. split; [reflexivity | apply andb_false_r].
Qed.

Lemma created_post_listing_witness :
  exists p,
    posts (db (snd (CreatePostForm.handleSubmit Sample.serving (fun t => t) true
                      (Some Sample.alice)
                      (CreatePostForm.mkState CreatePostForm.text "Only a title" "" ""
                         false "")
                      (Sample.fresh Sample.no_votes)))) = [Sample.hello; p] /\
    ProfilePage.is_text (PostWithAuthor.mk p None None) = false /\
    ProfilePage.is_link (PostWithAuthor.mk p None None) = false.
Proof.
  destruct (created_post_listing Sample.serving (fun t => t) true Sample.alice
              (CreatePostForm.mkState CreatePostForm.text "Only a title" "" "" false "")
              (Sample.fresh Sample.no_votes) None None eq_refl eq_refl)
    as (p & Hp & _ & _ & Htext).
  exists p. split; [exact Hp|].
  destruct (Htext eq_refl) as [Hlink Hiff]. split; [|exact Hlink].
  destruct (ProfilePage.is_text (PostWithAuthor.mk p None None)); [|reflexivity].
  now destruct (proj1 Hiff eq_refl).
Defined.

(** ** Reloading the feed *)

Lemma uniq_from_NoDup seen l : NoDup (JS.uniq_from seen l).
Proof.
  revert seen. induction l as [|x l IH]; intros seen; simpl; [constructor|].
  destruct (existsb (String.eqb x) seen); [apply IH|].
  constructor; [|apply IH].
  rewrite uniq_from_In. simpl. tauto.
Qed.

Lemma loadPosts_any oracle user page s :
  let postsData := JS.sort feed_order (posts (db s)) in
  let r := FeedPage.loadPosts oracle user page s in
  db (snd r) = db s /\
  FeedPage.loading (fst r) = false /\
  FeedPage.refreshing (fst r) = false /\
  match fault (oracle (calls s)) with
  | Some _ =>
      FeedPage.posts (fst r) = FeedPage.posts page /\
      calls (snd r) = S (calls s) /\
      added s (snd r) = [Sent PostsSelectFeed; ConsoleError "Error loading posts:"]
  | None =>
      FeedPage.posts (fst r)
        = FeedPage.combine (profiles_reply oracle s postsData)
            (votes_reply oracle user s) postsData /\
      match postsData with
      | [] => calls (snd r) = S (calls s) /\ added s (snd r) = [Sent PostsSelectFeed]
      | _ :: _ =>
          (calls s < calls (snd r) <= 3 + calls s)%nat /\
          added s (snd r)
            = [Sent PostsSelectFeed;
               Sent (ProfilesSelectIn (JS.uniq (map Post.author_id postsData)))]
              ++ match user with
                 | Some u => [Sent (VotesSelectByUser (User.id u))]
                 | None => []
                 end
      end
  end.
Proof.
  intros postsData r. subst r.
  unfold FeedPage.loadPosts, posts_select_feed. run_async.
  destruct (fault (oracle (calls s))) as [m|] eqn:E0; simpl.
  - repeat split; try reflexivity.
    apply added_app. simpl. rewrite <- ?app_assoc. reflexivity.
  - fold postsData. destruct postsData as [|p ps] eqn:Esort.
    + simpl. repeat split. now apply added_app.
    + unfold profiles_select_in, FeedPage.fetchUserVotes, votes_select_by_user,
        profiles_reply, votes_reply.
      run_async.
      destruct (fault (oracle (S (calls s)))); simpl;
        destruct user as [u|]; simpl;
        try destruct (fault (oracle (S (S (calls s))))); simpl;
        repeat split; try reflexivity; try lia;
        apply added_app; simpl; rewrite <- ?app_assoc; reflexivity.
Qed.

Lemma sort_nil_iff {A} (cmp : A -> A -> Z) l : JS.sort cmp l = [] <-> l = [].
Proof.
  split; [|intros ->; reflexivity].
  intros H. pose proof (sort_perm cmp l) as P. rewrite H in P.
  now apply Permutation_nil in P.
Qed.

(** X15. Loading the feed never writes to the store.  When the feed
    query is refused the page keeps the posts it was showing, logs the
    error and sends nothing more.  When the store has no post the feed
    is empty after that one request.  Otherwise the page sends one
    request for the profiles of the authors - each author id once - and,
    only when somebody is signed in, one for that user's votes.  The
    loading and refreshing flags end cleared in every case. *)
Theorem loadPosts_read_only oracle user page s :
  let r := FeedPage.loadPosts oracle user page s in
  db (snd r) = db s /\
  FeedPage.loading (fst r) = false /\
  FeedPage.refreshing (fst r) = false /\
  (~ served oracle (calls s) ->
     FeedPage.posts (fst r) = FeedPage.posts page /\
     issued s (snd r) = [PostsSelectFeed] /\
     In (ConsoleError "Error loading posts:") (added s (snd r))) /\
  (served oracle (calls s) -> posts (db s) = [] ->
     FeedPage.posts (fst r) = [] /\ issued s (snd r) = [PostsSelectFeed]) /\
  (served oracle (calls s) -> posts (db s) <> [] ->
     exists ids,
       issued s (snd r)
         = PostsSelectFeed :: ProfilesSelectIn ids
           :: match user with
              | Some u => [VotesSelectByUser (User.id u)]
              | None => []
              end /\
       NoDup ids /\
       forall x, In x ids <-> exists p, In p (posts (db s)) /\ Post.author_id p = x).
Proof.
  intros r. subst r.
  destruct (loadPosts_any oracle user page s) as (Hdb & Hl & Hr & H).
  split; [exact Hdb|]. split; [exact Hl|]. split; [exact Hr|].
  unfold served, issued. fold (added s (snd (FeedPage.loadPosts oracle user page s))).
  destruct (fault (oracle (calls s))) as [m|].
  - destruct H as (Hp & _ & Ha). rewrite Ha.
    split; [|split; intros; congruence].
    intros _. split; [exact Hp|]. split; [reflexivity|]. right. now left.
  - destruct H as (Hp & H). split; [tauto|]. split.
    + intros _ Hnil. rewrite Hnil in *. simpl in *. destruct H as (_ & ->).
      split; [exact Hp | reflexivity].
    + intros _ Hne.
      destruct (JS.sort feed_order (posts (db s))) as [|q qs] eqn:Esort;
        [apply sort_nil_iff in Esort; contradiction|].
      destruct H as (_ & ->). rewrite <- Esort.
      exists (JS.uniq (map Post.author_id (JS.sort feed_order (posts (db s))))).
      split; [destruct user; reflexivity|].
      split; [apply uniq_from_NoDup|].
      intros x. rewrite uniq_In, in_map_iff. split.
      * intros (p & Ea & Hin). exists p. split; [|exact Ea].
        eapply Permutation_in; [apply sort_perm | exact Hin].
      * intros (p & Hin & Ea). exists p. split; [exact Ea|].
        eapply Permutation_in; [apply Permutation_sym, sort_perm | exact Hin].
Qed.

(** X16. Reloading is idempotent: when the store serves every request
    and nothing changed in between, a second load leaves the page in the
    state the first one produced. *)
Theorem loadPosts_idempotent oracle user page s :
  (forall k, (k < 6)%nat -> served oracle (calls s + k)) ->
  let r1 := FeedPage.loadPosts oracle user page s in
  let r2 := FeedPage.loadPosts oracle user (fst r1) (snd r1) in
  fst r2 = fst r1.
Proof.
  intros Hserved r1 r2. subst r2.
  assert (Hat : forall n, (calls s <= n < calls s + 6)%nat -> fault (oracle n) = None).
  { intros n Hn. replace n with (calls s + (n - calls s))%nat by lia.
    apply Hserved. lia. }
  destruct (loadPosts_any oracle user page s) as (Hdb & Hl & Hr & H).
  fold r1 in Hdb, Hl, Hr, H.
  rewrite (Hat (calls s)) in H by lia. destruct H as (Hp & Hc).
  assert (Hcalls : (calls s <= calls (snd r1) <= calls s + 3)%nat).
  { destruct (JS.sort feed_order (posts (db s))); destruct Hc as (Hc & _); lia. }
  destruct (loadPosts_any oracle user (fst r1) (snd r1)) as (_ & Hl2 & Hr2 & H2).
  rewrite (Hat (calls (snd r1))) in H2 by lia. destruct H2 as (Hp2 & _).
  rewrite Hdb in Hp2.
  assert (E : FeedPage.posts (fst (FeedPage.loadPosts oracle user (fst r1) (snd r1)))
              = FeedPage.posts (fst r1)).
  { rewrite Hp2, Hp. unfold profiles_reply, votes_reply.
    rewrite Hdb, (Hat (S (calls s))), (Hat (S (calls (snd r1)))) by lia.
    destruct user as [u|]; [|reflexivity].
    rewrite (Hat (S (S (calls s)))), (Hat (S (S (calls (snd r1))))) by lia.
    reflexivity. }
  destruct (fst (FeedPage.loadPosts oracle user (fst r1) (snd r1))) as [p2 l2 f2].
  destruct (fst r1) as [p1 l1 f1]. simpl in *. congruence.
Qed.

Lemma loadPosts_idempotent_witness :
  let r1 := FeedPage.loadPosts Sample.serving (Some Sample.alice) Sample.empty_feed
              (Sample.fresh Sample.board) in
  fst (FeedPage.loadPosts Sample.serving (Some Sample.alice) (fst r1) (snd r1)) = fst r1.
Proof.
  intros r1.
  apply (loadPosts_idempotent Sample.serving (Some Sample.alice) Sample.empty_feed
           (Sample.fresh Sample.board)).
  intros k _. reflexivity.
Defined.

(** ** Sorting and filtering on the profile page *)

Section Stable.
Context {A : Type}.
Variables (cmp : A -> A -> Z) (key : A -> Z).
Hypothesis cmp_key : forall a b, cmp a b > 0 -> key a <> key b.

Lemma insert_stable k x l :
  filter (fun y => key y =? k) (JS.insert cmp x l)
  = filter (fun y => key y =? k) (x :: l).
Proof.
  induction l as [|y l IH]; [reflexivity|].
  cbn [JS.insert]. destruct (cmp x y >? 0) eqn:E; [|reflexivity].
  apply Z.gtb_lt in E. assert (Hne : key x <> key y) by (apply cmp_key; lia).
  cbn [filter] in *. rewrite IH.
  destruct (Z.eqb_spec (key y) k), (Z.eqb_spec (key x) k); try reflexivity.
  congruence.
Qed.

Lemma sort_stable k l :
  filter (fun y => key y =? k) (JS.sort cmp l) = filter (fun y => key y =? k) l.
Proof.
  induction l as [|x l IH]; [reflexivity|].
  cbn [JS.sort]. rewrite insert_stable. cbn [filter]. now rewrite IH.
Qed.
End Stable.

Lemma compare_key sortBy a b :
  ProfilePage.compare sortBy a b > 0 -> sort_key sortBy a <> sort_key sortBy b.
Proof. destruct sortBy; simpl; lia. Qed.

Lemma compare_order sortBy a b :
  goes_before (ProfilePage.compare sortBy) a b <-> profile_order sortBy a b.
Proof. unfold goes_before. destruct sortBy; simpl; lia. Qed.

Lemma StronglySorted_impl {A} (R R' : A -> A -> Prop) l :
  (forall a b, R a b -> R' a b) -> StronglySorted R l -> StronglySorted R' l.
Proof.
  intros H. induction 1 as [|x l Hs IH Hx]; constructor; [assumption|].
  eapply Forall_impl; [|exact Hx]. intros b. apply H.
Qed.

(** X17. The list the profile page shows is the filtered posts, each
    once, ordered by the selection: newest or oldest creation time
    first, highest or lowest score first.  Posts that agree on the
    sorted field keep the order they were loaded in. *)
Theorem applyFiltersAndSort_sorted posts sortBy filterBy :
  let shown := ProfilePage.applyFiltersAndSort posts sortBy filterBy in
  Permutation shown (ProfilePage.applyFilter filterBy posts) /\
  StronglySorted (profile_order sortBy) shown /\
  forall k,
    filter (fun p => sort_key sortBy p =? k) shown
    = filter (fun p => sort_key sortBy p =? k) (ProfilePage.applyFilter filterBy posts).
Proof.
  intros shown. subst shown. unfold ProfilePage.applyFiltersAndSort.
  split; [apply sort_perm|]. split.
  - apply (StronglySorted_impl (goes_before (ProfilePage.compare sortBy))).
    + intros a b. apply compare_order.
    + apply sort_sorted.
      * intros a b. destruct sortBy; simpl; lia.
      * intros a b c. destruct sortBy; simpl; lia.
  - intros k. apply sort_stable. apply compare_key.
Qed.

Lemma text_not_link p : ProfilePage.is_text p = true -> ProfilePage.is_link p = false.
Proof.
  unfold ProfilePage.is_text, ProfilePage.is_link.
  destruct (JS.truthy (ProfilePage.url p)); [|reflexivity].
  rewrite andb_false_r. discriminate.
Qed.

Lemma text_link_length posts :
  (List.length (filter ProfilePage.is_text posts)
   + List.length (filter ProfilePage.is_link posts) <= List.length posts)%nat.
Proof.
  induction posts as [|p posts IH]; simpl; [lia|].
  pose proof (text_not_link p).
  destruct (ProfilePage.is_text p), (ProfilePage.is_link p); simpl; try lia.
Qed.

(** X18. The three selections of the profile filter.  "all" lists every
    post.  No post is listed under both "text" and "link", so the two
    lists together are never longer than the list of all posts.  A post
    is listed under neither exactly when it has no URL and no body
    (absent or empty). *)
Theorem profile_filters_partition posts sortBy :
  let shown := ProfilePage.applyFiltersAndSort posts sortBy in
  Permutation (shown ProfilePage.all) posts /\
  (forall p, In p (shown ProfilePage.text) -> ~ In p (shown ProfilePage.link)) /\
  (List.length (shown ProfilePage.text) + List.length (shown ProfilePage.link)
   <= List.length posts)%nat /\
  (forall p, In p posts ->
     (~ In p (shown ProfilePage.text) /\ ~ In p (shown ProfilePage.link)) <->
     (JS.truthy (ProfilePage.content p) = false /\ JS.truthy (ProfilePage.url p) = false)).
Proof.
  intros shown. subst shown. unfold ProfilePage.applyFiltersAndSort.
  assert (Hin : forall f p, In p (JS.sort (ProfilePage.compare sortBy)
                                    (ProfilePage.applyFilter f posts))
                            <-> In p (ProfilePage.applyFilter f posts)).
  { intros f p. split; apply Permutation_in;
      [apply sort_perm | apply Permutation_sym, sort_perm]. }
  split; [apply sort_perm|]. split; [|split].
  - intros p. rewrite !Hin. simpl. rewrite !filter_In.
    intros [_ Ht] [_ Hl]. apply text_not_link in Ht. congruence.
  - rewrite !(Permutation_length (sort_perm _ _)). apply text_link_length.
  - intros p Hp. rewrite !Hin. simpl. rewrite !filter_In.
    unfold ProfilePage.is_text, ProfilePage.is_link.
    destruct (JS.truthy (ProfilePage.content p)), (JS.truthy (ProfilePage.url p));
      simpl; intuition congruence.
Qed.

(** ** Loading a profile *)

Lemma sum_post_scores_perm ps ps' :
  Permutation ps ps' -> sum_post_scores ps = sum_post_scores ps'.
Proof. induction 1; simpl; lia. Qed.

Lemma sum_scores_map (f : Post.t -> PostWithAuthor.t) ps :
  (forall p, PostWithAuthor.post (f p) = p) ->
  sum_scores (map f ps) = sum_post_scores ps.
Proof.
  intros H. induction ps as [|p ps IH]; simpl; [reflexivity|].
  unfold ProfilePage.score at 1. now rewrite H, IH.
Qed.

Lemma newest_sorted ps : StronglySorted newer_first (JS.sort Reads.newest_first ps).
Proof.
  apply (StronglySorted_impl (goes_before Reads.newest_first)).
  - unfold goes_before, Reads.newest_first, newer_first. intros a b. lia.
  - apply sort_sorted; unfold Reads.newest_first; intros; lia.
Qed.

Lemma loadProfile_served o1 o2 o3 user name b st pr :
  fault o1 = None -> fault o2 = None ->
  filter (fun p => String.eqb (Profile.username p) name) (profiles b) = [pr] ->
  fst (ProfilePageLoad.loadProfile o1 o2 o3 user name b st)
  = ProfilePageLoad.mkState (Some pr)
      (map (fun post =>
              PostWithAuthor.mk post (Some (Profile.username pr))
                (Some (FeedPage.user_vote (ProfilePageLoad.fetchUserVotes o3 user b) post)))
           (JS.sort Reads.newest_first (posts_of_author (Profile.id pr) b)))
      false.
Proof.
  intros H1 H2 Hpr.
  unfold ProfilePageLoad.loadProfile, Reads.profile_by_username, Reads.posts_by_author,
    Reads.answer.
  rewrite H1, Hpr. simpl. rewrite H2. reflexivity.
Qed.

(** X19. A served load of the profile with a given username, when
    exactly one profile has it: the page shows that profile; its posts
    are exactly the store's posts written by that profile, each once,
    newest first, and each carries the profile's username; and the karma
    the page computes is the sum of the scores of those store rows. *)
Theorem loadProfile_shows_author o1 o2 o3 user name b st pr :
  fault o1 = None -> fault o2 = None ->
  filter (fun p => String.eqb (Profile.username p) name) (profiles b) = [pr] ->
  let st' := fst (ProfilePageLoad.loadProfile o1 o2 o3 user name b st) in
  let shown := map PostWithAuthor.post (ProfilePageLoad.posts st') in
  ProfilePageLoad.profile st' = Some pr /\
  ProfilePageLoad.loading st' = false /\
  Permutation shown (posts_of_author (Profile.id pr) b) /\
  StronglySorted newer_first shown /\
  (forall a, In a (ProfilePageLoad.posts st') ->
     Post.author_id (PostWithAuthor.post a) = Profile.id pr /\
     PostWithAuthor.author_username a = Some (Profile.username pr)) /\
  ProfilePage.karma (ProfilePage.stats (ProfilePageLoad.posts st'))
    = sum_post_scores (posts_of_author (Profile.id pr) b).
Proof.
  intros H1 H2 Hpr st' shown. subst shown st'.
  rewrite (loadProfile_served o1 o2 o3 user name b st pr) by assumption.
  cbn [ProfilePageLoad.profile ProfilePageLoad.posts ProfilePageLoad.loading].
  rewrite map_map. cbn [PostWithAuthor.post]. rewrite map_id.
  split; [reflexivity|]. split; [reflexivity|].
  split; [apply sort_perm|]. split; [apply newest_sorted|]. split.
  - intros a Ha. apply in_map_iff in Ha. destruct Ha as (q & <- & Hq).
    cbn [PostWithAuthor.post PostWithAuthor.author_username]. split; [|reflexivity].
    apply (Permutation_in _ (sort_perm _ _)) in Hq.
    unfold posts_of_author in Hq. apply filter_In in Hq.
    now apply String.eqb_eq.
  - cbn [ProfilePage.stats ProfilePage.karma]. rewrite totalKarma_sum.
    rewrite sum_scores_map by reflexivity.
    apply sum_post_scores_perm, sort_perm.
Qed.

Lemma loadProfile_shows_author_witness :
  let st' := fst (ProfilePageLoad.loadProfile (Sample.serving 0) (Sample.serving 1)
                    (Sample.serving 2) (Some Sample.alice) "bob" Sample.board
                    (ProfilePageLoad.mkState None [] true)) in
  ProfilePageLoad.profile st' = Some Sample.bob /\
  ProfilePage.karma (ProfilePage.stats (ProfilePageLoad.posts st')) = 2.
Proof.
  intros st'.
  destruct (loadProfile_shows_author (Sample.serving 0) (Sample.serving 1)
              (Sample.serving 2) (Some Sample.alice) "bob" Sample.board
              (ProfilePageLoad.mkState None [] true) Sample.bob
              eq_refl eq_refl eq_refl) as (Hp & _ & _ & _ & _ & Hk).
  split; [exact Hp | exact Hk].
Defined.

(** X20. How a load of a profile fails.  When the profile query is
    refused, or no profile or more than one has the username, the page
    keeps the profile and the posts it had and logs the error.  When the
    profile is found but the query for its posts is refused, the page
    switches to the new profile and keeps the posts it had before.  The
    loading flag ends cleared in both cases. *)
Theorem loadProfile_failure o1 o2 o3 user name b st :
  let found := filter (fun p => String.eqb (Profile.username p) name) (profiles b) in
  let r := ProfilePageLoad.loadProfile o1 o2 o3 user name b st in
  (fault o1 <> None \/ found = [] \/ (2 <= List.length found)%nat ->
     ProfilePageLoad.profile (fst r) = ProfilePageLoad.profile st /\
     ProfilePageLoad.posts (fst r) = ProfilePageLoad.posts st /\
     ProfilePageLoad.loading (fst r) = false /\
     snd r = [ConsoleError "Error loading profile:"]) /\
  (forall pr, fault o1 = None -> found = [pr] -> fault o2 <> None ->
     ProfilePageLoad.profile (fst r) = Some pr /\
     ProfilePageLoad.posts (fst r) = ProfilePageLoad.posts st /\
     ProfilePageLoad.loading (fst r) = false /\
     snd r = [ConsoleError "Error loading profile:"]).
Proof.
  intros found r. subst r.
  unfold ProfilePageLoad.loadProfile, Reads.profile_by_username, Reads.posts_by_author,
    Reads.answer.
  fold found. split.
  - intros Hcase. destruct (fault o1) as [m|]; [repeat split|].
    destruct found as [|x [|y l]]; simpl in *; [repeat split | | repeat split].
    destruct Hcase as [H | [H | H]]; [congruence | discriminate | lia].
  - intros pr H1 Hpr H2. rewrite H1, Hpr. simpl.
    destruct (fault o2); [repeat split | congruence].
Qed.

Lemma StronglySorted_map {A B} (R : B -> B -> Prop) (g : A -> B) l :
  StronglySorted (fun a b => R (g a) (g b)) l <-> StronglySorted R (map g l).
Proof.
  induction l as [|x l IH]; simpl.
  - split; constructor.
  - split; intros H; inversion H; subst; constructor;
      try (apply IH; assumption);
      rewrite Forall_forall in *; intros y Hy.
    + apply in_map_iff in Hy. destruct Hy as (z & <- & Hz). auto.
    + match goal with Hf : forall x, In x (map g l) -> _ |- _ => apply Hf end.
      now apply in_map.
Qed.

Lemma StronglySorted_filter {A} (R : A -> A -> Prop) (f : A -> bool) l :
  StronglySorted R l -> StronglySorted R (filter f l).
Proof.
  induction 1 as [|x l Hs IH Hx]; simpl; [constructor|].
  destruct (f x); [|assumption]. constructor; [assumption|].
  rewrite Forall_forall in *. intros y Hy. apply Hx.
  apply filter_In in Hy. tauto.
Qed.

(** Sorting by score a list that is newest first gives the feed order. *)
Lemma insert_highest x l :
  StronglySorted (fun a b => feed_before (PostWithAuthor.post a) (PostWithAuthor.post b)) l ->
  Forall (fun y => ProfilePage.created_at y <= ProfilePage.created_at x) l ->
  StronglySorted (fun a b => feed_before (PostWithAuthor.post a) (PostWithAuthor.post b))
    (JS.insert (ProfilePage.compare ProfilePage.highest) x l).
Proof.
  induction 1 as [|y l Hs IH Hy]; intros Hx; simpl.
  - repeat constructor.
  - inversion Hx as [|? ? Hxy Hxl]; subst.
    unfold ProfilePage.score, ProfilePage.created_at in *.
    destruct (Z.gtb_spec (Post.score (PostWithAuthor.post y)
                          - Post.score (PostWithAuthor.post x)) 0) as [Hgt | Hle].
    + constructor; [now apply IH|].
      rewrite insert_perm. constructor; [|assumption].
      unfold feed_before. lia.
    + constructor; [now constructor|].
      constructor; [unfold feed_before; lia|].
      rewrite Forall_forall in *. intros z Hz.
      specialize (Hy z Hz). specialize (Hxl z Hz).
      unfold feed_before in *. lia.
Qed.

Lemma sort_highest l :
  StronglySorted (fun a b => ProfilePage.created_at b <= ProfilePage.created_at a) l ->
  StronglySorted (fun a b => feed_before (PostWithAuthor.post a) (PostWithAuthor.post b))
    (JS.sort (ProfilePage.compare ProfilePage.highest) l).
Proof.
  induction 1 as [|x l Hs IH Hx]; simpl; [constructor|].
  apply insert_highest; [assumption|].
  rewrite (sort_perm _ l). exact Hx.
Qed.

(** X21. On a freshly loaded profile the selection "highest" orders the
    posts like the feed: higher score first, and among posts of equal
    score the newer one first - the posts arrive newest first and the
    sort is stable.  This holds under every filter. *)
Theorem profile_highest_like_feed o1 o2 o3 user name b st pr filterBy :
  fault o1 = None -> fault o2 = None ->
  filter (fun p => String.eqb (Profile.username p) name) (profiles b) = [pr] ->
  let st' := fst (ProfilePageLoad.loadProfile o1 o2 o3 user name b st) in
  StronglySorted feed_before
    (map PostWithAuthor.post
       (ProfilePage.applyFiltersAndSort (ProfilePageLoad.posts st')
          ProfilePage.highest filterBy)).
Proof.
  intros H1 H2 Hpr st'. subst st'.
  rewrite (loadProfile_served o1 o2 o3 user name b st pr) by assumption.
  cbn [ProfilePageLoad.posts].
  apply (proj1 (StronglySorted_map feed_before PostWithAuthor.post _)).
  unfold ProfilePage.applyFiltersAndSort. apply sort_highest.
  assert (Hloaded : forall f : Post.t -> PostWithAuthor.t,
            (forall p, PostWithAuthor.post (f p) = p) ->
            StronglySorted
              (fun a b => ProfilePage.created_at b <= ProfilePage.created_at a)
              (map f (JS.sort Reads.newest_first (posts_of_author (Profile.id pr) b)))).
  { intros f Hf. unfold ProfilePage.created_at.
    apply (proj1 (StronglySorted_map
                    (fun a b => Post.created_at (PostWithAuthor.post b)
                                <= Post.created_at (PostWithAuthor.post a)) f _)).
    eapply StronglySorted_impl; [|apply newest_sorted].
    intros p q. cbn beta. rewrite !Hf. auto. }
  destruct filterBy; simpl;
    try apply StronglySorted_filter; apply Hloaded; reflexivity.
Qed.

Lemma profile_highest_like_feed_witness :
  StronglySorted feed_before
    (map PostWithAuthor.post
       (ProfilePage.applyFiltersAndSort
          (ProfilePageLoad.posts
             (fst (ProfilePageLoad.loadProfile (Sample.serving 0) (Sample.serving 1)
                     (Sample.serving 2) None "bob" Sample.board
                     (ProfilePageLoad.mkState None [] true))))
          ProfilePage.highest ProfilePage.all)).
Proof.
  exact (profile_highest_like_feed (Sample.serving 0) (Sample.serving 1)
           (Sample.serving 2) None "bob" Sample.board
           (ProfilePageLoad.mkState None [] true) Sample.bob ProfilePage.all
           eq_refl eq_refl eq_refl).
Defined.

(** ** Moderation: a delete, then the reload it triggers *)

Lemma admin_loadPosts_served o1 o2 b page :
  fault o1 = None ->
  map PostWithAuthor.post (AdminPage.posts (fst (AdminPage.loadPosts o1 o2 b page)))
  = JS.sort Reads.newest_first (posts b).
Proof.
  intros H1. unfold AdminPage.loadPosts, Reads.posts_newest_first, Reads.answer.
  rewrite H1. simpl.
  destruct (JS.sort Reads.newest_first (posts b)) as [|p ps]; [reflexivity|].
  cbn [fst AdminPage.posts]. rewrite map_map. cbn [PostWithAuthor.post]. apply map_id.
Qed.

(** X22. On the admin page a confirmed delete whose post deletion is
    served, followed by the served reload, leaves a list that holds
    every other post of the store, newest first, and no post with the
    id of the deleted one - also when the deletion of its votes was
    refused. *)
Theorem admin_delete_then_reload oracle auth props st s o1 o2 page :
  PostCard.is_admin auth = true ->
  PostCard.deleting st = false ->
  served oracle (S (calls s)) ->
  fault o1 = None ->
  let pid := PostCard.post_id props in
  let s' := snd (PostCard.handleDelete oracle auth props true st s) in
  let listed :=
    map PostWithAuthor.post
      (AdminPage.posts (fst (AdminPage.loadPosts o1 o2 (db s') page))) in
  (forall p, In p listed <-> In p (posts (db s)) /\ Post.id p <> pid) /\
  StronglySorted newer_first listed.
Proof.
  intros Hadmin Hdel Hs H1 pid s' listed. subst listed s' pid.
  rewrite admin_loadPosts_served by assumption.
  split; [|apply newest_sorted].
  intros p. rewrite handleDelete_any by assumption. cbn [snd db].
  unfold after_request. unfold served in Hs. rewrite Hs.
  split.
  - intros Hin. apply (Permutation_in _ (sort_perm _ _)) in Hin.
    destruct (fault (oracle (calls s))); simpl in Hin;
      rewrite ?filter_rescore in Hin;
      apply filter_In in Hin; rewrite negb_true_iff, String.eqb_neq in Hin; exact Hin.
  - intros Hin. apply (Permutation_in _ (Permutation_sym (sort_perm _ _))).
    destruct (fault (oracle (calls s))); simpl; rewrite ?filter_rescore;
      apply filter_In; rewrite negb_true_iff, String.eqb_neq; exact Hin.
Qed.

Lemma admin_delete_then_reload_witness :
  let s' := snd (PostCard.handleDelete Sample.first_refused Sample.moderator Sample.card
                   true Sample.idle (Sample.fresh Sample.board)) in
  StronglySorted newer_first
    (map PostWithAuthor.post
       (AdminPage.posts
          (fst (AdminPage.loadPosts (Sample.serving 2) (Sample.serving 3) (db s')
                  (AdminPage.mkState [] true))))).
Proof.
  exact (proj2 (admin_delete_then_reload Sample.first_refused Sample.moderator
                  Sample.card Sample.idle (Sample.fresh Sample.board)
                  (Sample.serving 2) (Sample.serving 3) (AdminPage.mkState [] true)
                  eq_refl eq_refl eq_refl eq_refl)).
Defined.
